(** * FormValidator: a shallow embedding of [src/src/form-validator.ts]

    The embedded class is the last version of [FormValidator] in
    [form-validator.ts] (the one with [#fields : Map<string, TFieldConfig>],
    [#extractHtmlRules], [#mergeRules], [#validateField], [#showError],
    [#clearErrors] and [#getDefaultErrorMessage]), with the types of
    [Rule<T>] as declared next to it ([TStringFieldTypes | "number"]).

    Modelling choices:
    - A JS number is [jsnum]: NaN, a finite value (a rational) or an
      infinity; [<] and [>] follow the JS comparison (false on NaN).
    - The JS built-ins the class calls ([String.prototype.trim], [.length],
      [Number], [parseInt], [parseFloat], number-to-string and the [RegExp]
      constructor) are the methods of the class [JsRuntime]; every theorem
      holds for any runtime, the examples use a small concrete one.
    - A rule object [Rule<T>] is a [gmap string rule_entry]: the own keys of
      the object; each entry carries the value typed as in [Rule<T>], [None]
      standing for a key explicitly set to [undefined].  A [getMessage]
      closure is represented by the string it returns.
    - A [RegExp] object is a record with an identity [re_id]; its mutable
      [lastIndex] lives in the store [st_lastIndex], shared by every rule
      that holds the same object.
    - The form is a list of elements; [querySelector("#x")] returns the first
      element whose id is [x].
    - Methods run in a state and exception monad [M] over the DOM, the
      [lastIndex] store and the [#fields] map (an insertion-ordered
      association list, as a JS [Map]).
    The two earlier classes of the same file are embedded at the end, in
    the modules [FormValidatorV1] and [FormValidatorV2]. *)

From Stdlib Require Import QArith.
From stdpp Require Import base gmap strings list fin_maps.

Open Scope string_scope.

(* ------------------------------------------------------------------ *)
(** ** JS numbers *)

Inductive jsnum :=
| JNaN
| JFin (q : Q)
| JInf (pos : bool).

(** [a < b] in JS. *)
Definition js_lt (a b : jsnum) : bool :=
  match a, b with
  | JNaN, _ | _, JNaN => false
  | JFin x, JFin y => negb (Qle_bool y x)
  | JInf true, _ => false
  | _, JInf false => false
  | JInf false, _ => true
  | JFin _, JInf true => true
  end.

(** [a > b] in JS. *)
Definition js_gt (a b : jsnum) : bool := js_lt b a.

Definition js_of_nat (n : nat) : jsnum := JFin (inject_Z (Z.of_nat n)).

(* ------------------------------------------------------------------ *)
(** ** The JS runtime used by the class *)

(** [m s i = Some e]: the pattern matches [s] from index [i] exactly,
    ending at index [e]. *)
Definition matcher := string -> nat -> option nat.

Class JsRuntime := {
  js_trim : string -> string;
  js_length : string -> nat;
  js_Number : string -> jsnum;
  js_parseInt10 : string -> jsnum;
  js_parseFloat : string -> jsnum;
  js_numToString : jsnum -> string;
  (** [new RegExp(src)]; [None] when [src] is not a valid pattern. *)
  js_RegExp : string -> option matcher
}.

Record regex := {
  re_id : nat;
  re_global : bool;
  re_sticky : bool;
  re_match_at : matcher
}.

(* ------------------------------------------------------------------ *)
(** ** Rule objects ([Rule<T>]) and field types *)

Inductive field_type := FText | FEmail | FPassword | FNumber.

Definition is_number (t : field_type) : bool :=
  match t with FNumber => true | _ => false end.

Inductive rule_entry :=
| RRequired (v : option bool)
| RGetMessage (v : option string)
| RMinLength (v : option jsnum)
| RMaxLength (v : option jsnum)
| RPattern (v : option regex)
| RMin (v : option jsnum)
| RMax (v : option jsnum).

Definition key_of (e : rule_entry) : string :=
  match e with
  | RRequired _ => "required"
  | RGetMessage _ => "getMessage"
  | RMinLength _ => "minLength"
  | RMaxLength _ => "maxLength"
  | RPattern _ => "pattern"
  | RMin _ => "min"
  | RMax _ => "max"
  end.

Abbreviation RuleSet := (gmap string rule_entry).

(** An object literal [{ k1: v1, k2: v2, ... }]: a later duplicate key wins. *)
Definition mk_rules (es : list rule_entry) : RuleSet :=
  foldl (fun m e => <[key_of e := e]> m) ∅ es.

(** Object spread [{ ...acc, ...src }]: every own key of [src] is set on
    the target in turn. *)
Definition obj_spread (acc src : RuleSet) : RuleSet :=
  map_fold (fun k v a => <[k := v]> a) acc src.

(** [#mergeRules(htmlRules, jsRules) = { ...htmlRules, ...jsRules }];
    spreading [undefined] copies nothing. *)
Definition mergeRules (htmlRules : RuleSet) (jsRules : option RuleSet) : RuleSet :=
  obj_spread (obj_spread ∅ htmlRules) (default ∅ jsRules).

(** Property reads on the merged rules, as [#validateField] uses them. *)
Definition rule_required (r : RuleSet) : bool :=
  match r !! "required" with Some (RRequired (Some true)) => true | _ => false end.

Definition rule_getMessage (r : RuleSet) : option string :=
  match r !! "getMessage" with Some (RGetMessage (Some s)) => Some s | _ => None end.

Definition rule_minLength (r : RuleSet) : option jsnum :=
  match r !! "minLength" with Some (RMinLength (Some n)) => Some n | _ => None end.

Definition rule_maxLength (r : RuleSet) : option jsnum :=
  match r !! "maxLength" with Some (RMaxLength (Some n)) => Some n | _ => None end.

Definition rule_pattern (r : RuleSet) : option regex :=
  match r !! "pattern" with Some (RPattern (Some re)) => Some re | _ => None end.

Definition rule_min (r : RuleSet) : option jsnum :=
  match r !! "min" with Some (RMin (Some n)) => Some n | _ => None end.

Definition rule_max (r : RuleSet) : option jsnum :=
  match r !! "max" with Some (RMax (Some n)) => Some n | _ => None end.

(* ------------------------------------------------------------------ *)
(** ** [#getDefaultErrorMessage] *)

Section Messages.
Context `{JsRuntime}.

(** [`${rulesAny.k}`] for a numeric rule: [undefined] prints as such. *)
Definition num_prop_to_string (o : option jsnum) : string :=
  match o with Some n => js_numToString n | None => "undefined" end.

Definition default_messages (rules : RuleSet) : list (string * string) :=
  [("required", "Это поле обязательно");
   ("minLength", "Минимум " +:+ num_prop_to_string (rule_minLength rules) +:+ " символов");
   ("maxLength", "Максимум " +:+ num_prop_to_string (rule_maxLength rules) +:+ " символов");
   ("pattern", "Неверный формат");
   ("min", "Минимальное значение: " +:+ num_prop_to_string (rule_min rules));
   ("max", "Максимальное значение: " +:+ num_prop_to_string (rule_max rules))].

Fixpoint assoc_str (k : string) (l : list (string * string)) : option string :=
  match l with
  | [] => None
  | (k', v) :: t => if bool_decide (k = k') then Some v else assoc_str k t
  end.

(** [messages[rule] || "Ошибка валидации"] *)
Definition getDefaultErrorMessage (rule : string) (rules : RuleSet) : string :=
  match assoc_str rule (default_messages rules) with
  | Some m => if bool_decide (m = "") then "Ошибка валидации" else m
  | None => "Ошибка валидации"
  end.

(** [rules.getMessage?.() || this.#getDefaultErrorMessage(rule, rules)] *)
Definition resolve_message (rule : string) (rules : RuleSet) : string :=
  match rule_getMessage rules with
  | Some s => if bool_decide (s = "") then getDefaultErrorMessage rule rules else s
  | None => getDefaultErrorMessage rule rules
  end.

End Messages.

(* ------------------------------------------------------------------ *)
(** ** The form (DOM collaborator) *)

Record element := {
  el_id : string;
  el_value : string;
  el_attrs : list (string * string);
  el_text : string;
  el_display : string
}.

(** [form.querySelector("#" + id)] *)
Fixpoint query (d : list element) (id : string) : option element :=
  match d with
  | [] => None
  | e :: t => if bool_decide (el_id e = id) then Some e else query t id
  end.

(** Update the element [query d id] returns, if any. *)
Fixpoint upd_first (id : string) (f : element -> element) (d : list element) : list element :=
  match d with
  | [] => []
  | e :: t => if bool_decide (el_id e = id) then f e :: t else e :: upd_first id f t
  end.

Definition getAttribute (e : element) (a : string) : option string :=
  assoc_str a (el_attrs e).

Definition hasAttribute (e : element) (a : string) : bool :=
  match getAttribute e a with Some _ => true | None => false end.

(** [el.textContent = txt; el.style.display = disp] *)
Definition set_error_el (txt disp : string) (e : element) : element :=
  {| el_id := el_id e; el_value := el_value e; el_attrs := el_attrs e;
     el_text := txt; el_display := disp |}.

(* ------------------------------------------------------------------ *)
(** ** Engine state and the state/exception monad *)

Record FieldConfig := {
  fieldName : string;
  type : field_type;
  rules : RuleSet;
  htmlRules : RuleSet;
  finalRules : RuleSet
}.

Record ValidationError := {
  ve_fieldName : string;
  ve_message : string
}.

Record state := {
  st_dom : list element;
  st_lastIndex : nat -> nat;
  st_next_re : nat;
  st_fields : list (string * FieldConfig)
}.

Inductive js_error :=
| InputNotFound (msg : string)
| RegExpSyntaxError (src : string).

Definition M (A : Type) : Type := state -> (js_error + A) * state.

Definition ret {A} (a : A) : M A := fun s => (inr a, s).

Definition bind {A B} (m : M A) (k : A -> M B) : M B :=
  fun s => match m s with
           | (inl e, s') => (inl e, s')
           | (inr a, s') => k a s'
           end.

Definition throw {A} (e : js_error) : M A := fun s => (inl e, s).

Definition get : M state := fun s => (inr s, s).

Definition modify (f : state -> state) : M unit := fun s => (inr tt, f s).

Notation "'let!' x ':=' m 'in' k" := (bind m (fun x => k))
  (at level 200, x binder, m at level 100, k at level 200).

Definition with_dom (f : list element -> list element) (s : state) : state :=
  {| st_dom := f (st_dom s); st_lastIndex := st_lastIndex s;
     st_next_re := st_next_re s; st_fields := st_fields s |}.

Definition with_lastIndex (i v : nat) (s : state) : state :=
  {| st_dom := st_dom s;
     st_lastIndex := fun j => if Nat.eqb j i then v else st_lastIndex s j;
     st_next_re := st_next_re s; st_fields := st_fields s |}.

Definition with_fields (fs : list (string * FieldConfig)) (s : state) : state :=
  {| st_dom := st_dom s; st_lastIndex := st_lastIndex s;
     st_next_re := st_next_re s; st_fields := fs |}.

(** [new RegExp(src)] allocates a fresh object with [lastIndex = 0]. *)
Definition new_regex (m : matcher) : M regex :=
  fun s => (inr {| re_id := st_next_re s; re_global := false; re_sticky := false;
                   re_match_at := m |},
            {| st_dom := st_dom s;
               st_lastIndex := fun j => if Nat.eqb j (st_next_re s) then 0 else st_lastIndex s j;
               st_next_re := S (st_next_re s); st_fields := st_fields s |}).

(** [Map.prototype.set]: an existing key keeps its position. *)
Fixpoint map_set (fs : list (string * FieldConfig)) (k : string) (v : FieldConfig)
  : list (string * FieldConfig) :=
  match fs with
  | [] => [(k, v)]
  | (k', v') :: t => if bool_decide (k' = k) then (k, v) :: t else (k', v') :: map_set t k v
  end.

(* ------------------------------------------------------------------ *)
(** ** The class methods *)

Section Engine.
Context `{JsRuntime}.

(** Leftmost match at or after index [i] ([fuel] bounds the scan). *)
Fixpoint re_search (m : matcher) (s : string) (i fuel : nat) : option nat :=
  match fuel with
  | O => None
  | S f => match m s i with Some e => Some e | None => re_search m s (S i) f end
  end.

Definition set_lastIndex (re : regex) (v : nat) : M unit :=
  if re_global re || re_sticky re then modify (with_lastIndex (re_id re) v) else ret tt.

(** [RegExp.prototype.test(s)]: a global or sticky object starts at its
    [lastIndex], moves it past a match and resets it to 0 on failure;
    other objects search from 0 and leave [lastIndex] alone. *)
Definition regex_test (re : regex) (s : string) : M bool :=
  let! st := get in
  let li := if re_global re || re_sticky re then st_lastIndex st (re_id re) else 0 in
  if Nat.ltb (js_length s) li then
    let! _ := set_lastIndex re 0 in ret false
  else
    let r := if re_sticky re then re_match_at re s li
             else re_search (re_match_at re) s li (S (js_length s - li)) in
    match r with
    | Some e => let! _ := set_lastIndex re e in ret true
    | None => let! _ := set_lastIndex re 0 in ret false
    end.

(** [#extractHtmlRules(fieldName, type)] *)
Definition extractHtmlRules (name : string) (ty : field_type) : M RuleSet :=
  let! s := get in
  match query (st_dom s) ("input-" +:+ name) with
  | None => throw (InputNotFound ("Input not found: input-" +:+ name))
  | Some input =>
    let r0 : RuleSet :=
      if hasAttribute input "required" then <["required" := RRequired (Some true)]> ∅ else ∅ in
    let! r1 :=
      (if negb (is_number ty) then
         let r := match getAttribute input "minlength" with
                  | Some a => <["minLength" := RMinLength (Some (js_parseInt10 a))]> r0
                  | None => r0 end in
         let r := match getAttribute input "maxlength" with
                  | Some a => <["maxLength" := RMaxLength (Some (js_parseInt10 a))]> r
                  | None => r end in
         match getAttribute input "pattern" with
         | Some a =>
           match js_RegExp a with
           | Some m => let! re := new_regex m in ret (<["pattern" := RPattern (Some re)]> r)
           | None => throw (RegExpSyntaxError a)
           end
         | None => ret r
         end
       else ret r0) in
    let r2 :=
      if is_number ty then
        let r := match getAttribute input "min" with
                 | Some a => <["min" := RMin (Some (js_parseFloat a))]> r1
                 | None => r1 end in
        match getAttribute input "max" with
        | Some a => <["max" := RMax (Some (js_parseFloat a))]> r
        | None => r end
      else r1 in
    ret r2
  end.

(** [addField(fieldName, type, rules?)] *)
Definition addField (name : string) (ty : field_type) (rules0 : option RuleSet) : M unit :=
  let! hr := extractHtmlRules name ty in
  let fr := mergeRules hr rules0 in
  modify (fun s => with_fields
    (map_set (st_fields s) name
       {| fieldName := name; type := ty; rules := default ∅ rules0;
          htmlRules := hr; finalRules := fr |}) s).

Definition mk_error (config : FieldConfig) (rule : string) : option ValidationError :=
  Some {| ve_fieldName := fieldName config;
          ve_message := resolve_message rule (finalRules config) |}.

(** [#validateField(config)] *)
Definition validateField (config : FieldConfig) : M (option ValidationError) :=
  let! s := get in
  match query (st_dom s) ("input-" +:+ fieldName config) with
  | None => ret None
  | Some input =>
    let value := js_trim (el_value input) in
    let rules := finalRules config in
    if rule_required rules && bool_decide (value = "") then ret (mk_error config "required")
    else if bool_decide (value = "") then ret None
    else if is_number (type config) then
      let numValue := js_Number value in
      if (match rule_min rules with Some m => js_lt numValue m | None => false end)
      then ret (mk_error config "min")
      else if (match rule_max rules with Some m => js_gt numValue m | None => false end)
      then ret (mk_error config "max")
      else ret None
    else
      if (match rule_minLength rules with
          | Some m => js_lt (js_of_nat (js_length value)) m | None => false end)
      then ret (mk_error config "minLength")
      else if (match rule_maxLength rules with
               | Some m => js_gt (js_of_nat (js_length value)) m | None => false end)
      then ret (mk_error config "maxLength")
      else match rule_pattern rules with
           | Some re =>
             let! ok := regex_test re value in
             if negb ok then ret (mk_error config "pattern") else ret None
           | None => ret None
           end
  end.

(** [#showError(fieldName, message)] *)
Definition showError (name msg : string) : M unit :=
  modify (with_dom (upd_first ("error-" +:+ name) (set_error_el msg "block"))).

Definition clear_dom (fs : list (string * FieldConfig)) (d : list element) : list element :=
  foldl (fun d kv => upd_first ("error-" +:+ kv.1) (set_error_el "" "none") d) d fs.

(** [#clearErrors()] *)
Definition clearErrors : M unit :=
  modify (fun s => with_dom (clear_dom (st_fields s)) s).

(** The [this.#fields.forEach] loop of [validate]. *)
Fixpoint validate_loop (fs : list (string * FieldConfig)) (isValid : bool) : M bool :=
  match fs with
  | [] => ret isValid
  | (_, config) :: t =>
    let! error := validateField config in
    match error with
    | Some e => let! _ := showError (ve_fieldName e) (ve_message e) in validate_loop t false
    | None => validate_loop t isValid
    end
  end.

(** [validate()] *)
Definition validate : M bool :=
  let! _ := clearErrors in
  let! s := get in
  validate_loop (st_fields s) true.

(** The rule name [#validateField] reports for a field, that is the
    [rule] argument of the [#getDefaultErrorMessage] call on the path the
    code takes: the code's own checks, in the code's order, the first
    violated one winning; the [pattern] check is [RegExp.prototype.test],
    which reads and moves [lastIndex]. *)
Fixpoint first_violated (cs : list (string * M bool)) : M (option string) :=
  match cs with
  | [] => ret None
  | (kind, c) :: t => let! v := c in if v then ret (Some kind) else first_violated t
  end.

Definition rule_checks (config : FieldConfig) (value : string) : list (string * M bool) :=
  let rules := finalRules config in
  let len := js_of_nat (js_length value) in
  if is_number (type config) then
    [("min", ret (match rule_min rules with Some m => js_lt (js_Number value) m | None => false end));
     ("max", ret (match rule_max rules with Some m => js_gt (js_Number value) m | None => false end))]
  else
    [("minLength", ret (match rule_minLength rules with Some m => js_lt len m | None => false end));
     ("maxLength", ret (match rule_maxLength rules with Some m => js_gt len m | None => false end));
     ("pattern", match rule_pattern rules with
                 | Some re => let! ok := regex_test re value in ret (negb ok)
                 | None => ret false
                 end)].

Definition violation_kind (config : FieldConfig) : M (option string) :=
  let! s := get in
  match query (st_dom s) ("input-" +:+ fieldName config) with
  | None => ret None
  | Some input =>
    let value := js_trim (el_value input) in
    if rule_required (finalRules config) && bool_decide (value = "") then ret (Some "required")
    else if bool_decide (value = "") then ret None
    else first_violated (rule_checks config value)
  end.

End Engine.

(** The rule names [#validateField] can report, the keys of the default
    message table. *)
Definition violation_kinds : list string :=
  ["required"; "min"; "max"; "minLength"; "maxLength"; "pattern"].

(* ------------------------------------------------------------------ *)
(** ** A small concrete runtime for examples

    Trimming of ASCII white space, lengths in characters, decimal integers
    only for [Number]/[parseInt]/[parseFloat] and printing, and patterns
    that match their source text literally.  It agrees with JS on the
    inputs used below. *)

Module ExampleRuntime.

Definition is_ws (c : Ascii.ascii) : bool :=
  match Ascii.nat_of_ascii c with 9 | 10 | 11 | 12 | 13 | 32 => true | _ => false end.

Fixpoint trim_left (s : string) : string :=
  match s with
  | EmptyString => EmptyString
  | String c t => if is_ws c then trim_left t else s
  end.

Definition trim (s : string) : string :=
  String.string_of_list_ascii (rev (String.list_ascii_of_string
    (trim_left (String.string_of_list_ascii (rev (String.list_ascii_of_string (trim_left s))))))).

Definition digit (c : Ascii.ascii) : option Z :=
  let n := Ascii.nat_of_ascii c in
  if (48 <=? n)%nat && (n <=? 57)%nat then Some (Z.of_nat (n - 48)) else None.

(** All of [s] as decimal digits, after [acc]. *)
Fixpoint digits_all (s : string) (acc : Z) : option Z :=
  match s with
  | EmptyString => Some acc
  | String c t => match digit c with Some d => digits_all t (10 * acc + d)%Z | None => None end
  end.

(** The longest digit prefix of [s], if any. *)
Fixpoint digits_prefix (s : string) (acc : option Z) : option Z :=
  match s with
  | EmptyString => acc
  | String c t =>
    match digit c with
    | Some d => digits_prefix t (Some (10 * default 0%Z acc + d)%Z)
    | None => acc
    end
  end.

Definition Number (s : string) : jsnum :=
  match s with
  | EmptyString => JFin 0
  | _ => match digits_all s 0 with Some z => JFin (inject_Z z) | None => JNaN end
  end.

Definition parse_prefix (s : string) : jsnum :=
  match digits_prefix s None with Some z => JFin (inject_Z z) | None => JNaN end.

Fixpoint nat_digits (fuel n : nat) (acc : string) : string :=
  match fuel with
  | O => acc
  | S f =>
    let acc' := String (Ascii.ascii_of_nat (48 + n mod 10)) acc in
    if (n <? 10)%nat then acc' else nat_digits f (n / 10) acc'
  end.

Definition z_to_string (z : Z) : string :=
  let s := nat_digits (S (Z.to_nat (Z.abs z))) (Z.to_nat (Z.abs z)) "" in
  if (z <? 0)%Z then "-" +:+ s else s.

Definition numToString (n : jsnum) : string :=
  match n with
  | JNaN => "NaN"
  | JInf true => "Infinity"
  | JInf false => "-Infinity"
  | JFin q => z_to_string (Qnum q)
  end.

(** [src] read as a literal: matches exactly the characters of [src]. *)
Definition literal (src : string) : matcher :=
  fun s i => if String.prefix src (String.substring i (String.length s - i) s)
             then Some (i + String.length src)%nat else None.

#[global] Instance rt : JsRuntime := {|
  js_trim := trim;
  js_length := String.length;
  js_Number := Number;
  js_parseInt10 := parse_prefix;
  js_parseFloat := parse_prefix;
  js_numToString := numToString;
  js_RegExp := fun src => Some (literal src)
|}.

End ExampleRuntime.

(** A form with one input and one error element per field name. *)
Definition field_elems (name value : string) (attrs : list (string * string)) : list element :=
  [{| el_id := "input-" +:+ name; el_value := value; el_attrs := attrs; el_text := ""; el_display := "" |};
   {| el_id := "error-" +:+ name; el_value := ""; el_attrs := []; el_text := ""; el_display := "" |}].

Definition init_state (d : list element) : state :=
  {| st_dom := d; st_lastIndex := fun _ => 0; st_next_re := 100; st_fields := [] |}.

(** Run [m], keep the outcome and the final state. *)
Definition run {A} (m : M A) (s : state) : (js_error + A) * state := m s.

Definition seqM {A} (m1 : M unit) (m2 : M A) : M A := let! _ := m1 in m2.

Definition error_text (s : state) (name : string) : option string :=
  el_text <$> query (st_dom s) ("error-" +:+ name).

(* ------------------------------------------------------------------ *)
(** ** Statements of the specification *)

Section SpecDefs.
Context `{JsRuntime}.

(** "The trimmed value matches the pattern", as the specification words
    it: a match found in the value, searching from its start. *)
Definition spec_matches (re : regex) (v : string) : bool :=
  match re_search (re_match_at re) v 0 (S (js_length v)) with
  | Some _ => true
  | None => false
  end.

(** The per-field algorithm as the specification words it: after the
    [required] and emptiness steps, an ordered list of type-specific checks
    (each answering "violated?") is run and the first violated one wins;
    [pattern] is violated when the trimmed value fails to match. *)
Definition spec_checks (config : FieldConfig) (value : string) : list (string * bool) :=
  let rules := finalRules config in
  let len := js_of_nat (js_length value) in
  if is_number (type config) then
    [("min", match rule_min rules with Some m => js_lt (js_Number value) m | None => false end);
     ("max", match rule_max rules with Some m => js_gt (js_Number value) m | None => false end)]
  else
    [("minLength", match rule_minLength rules with Some m => js_lt len m | None => false end);
     ("maxLength", match rule_maxLength rules with Some m => js_gt len m | None => false end);
     ("pattern", match rule_pattern rules with
                 | Some re => negb (spec_matches re value)
                 | None => false
                 end)].

Fixpoint first_violation (cs : list (string * bool)) : option string :=
  match cs with
  | [] => None
  | (kind, v) :: t => if v then Some kind else first_violation t
  end.

(** The kind of the first violation of a field, if any. *)
Definition spec_field_violation (config : FieldConfig) (s : state) : option string :=
  match query (st_dom s) ("input-" +:+ fieldName config) with
  | None => None
  | Some input =>
    let value := js_trim (el_value input) in
    if rule_required (finalRules config) && bool_decide (value = "") then Some "required"
    else if bool_decide (value = "") then None
    else first_violation (spec_checks config value)
  end.

(** The field's [pattern], if any, is tested from index 0: it is not
    sticky and, when global, its [lastIndex] is 0 (always the case for a
    [RegExp] without the [g] and [y] flags). *)
Definition pattern_from_start (config : FieldConfig) (s : state) : bool :=
  match rule_pattern (finalRules config) with
  | Some re => negb (re_sticky re) && (negb (re_global re) || Nat.eqb (st_lastIndex s (re_id re)) 0)
  | None => true
  end.

Definition fmapM {A B} (f : A -> B) (m : M A) : M B := let! a := m in ret (f a).

(** Every field evaluated in order, each in the state the previous one left. *)
Fixpoint eval_fields (fs : list (string * FieldConfig)) : M (list (option ValidationError)) :=
  match fs with
  | [] => ret []
  | (_, config) :: t =>
    let! r := validateField config in
    let! rs := eval_fields t in
    ret (r :: rs)
  end.

End SpecDefs.

(** Rendering the violations found, in order, into the error elements. *)
Definition render (rs : list (option ValidationError)) (d : list element) : list element :=
  foldl (fun d r => match r with
                    | Some e => upd_first ("error-" +:+ ve_fieldName e) (set_error_el (ve_message e) "block") d
                    | None => d
                    end) d rs.

Definition is_none {A} (o : option A) : bool := match o with None => true | Some _ => false end.

(** The keys [Rule<T>] allows for a field type. *)
Definition legal_keys (ty : field_type) : list string :=
  if is_number ty then ["required"; "getMessage"; "min"; "max"]
  else ["required"; "getMessage"; "minLength"; "maxLength"; "pattern"].

Definition legal_rules (ty : field_type) (r : RuleSet) : Prop :=
  map_Forall (fun k _ => k ∈ legal_keys ty) r.

Definition fields_legal (fs : list (string * FieldConfig)) : Prop :=
  Forall (fun kc => legal_rules (type kc.2) (finalRules kc.2)) fs.

#[global] Instance legal_rules_dec ty r : Decision (legal_rules ty r).
Proof. unfold legal_rules. apply _. Defined.

#[global] Instance fields_legal_dec fs : Decision (fields_legal fs).
Proof. unfold fields_legal. apply _. Defined.

(** A chain of [addField] calls; the first throw ends it. *)
Fixpoint register_all `{JsRuntime} (regs : list (string * field_type * option RuleSet)) : M unit :=
  match regs with
  | [] => ret tt
  | (name, ty, r) :: t => let! _ := addField name ty r in register_all t
  end.

(** The [pattern] rule of a config, if any, holds neither a global nor a
    sticky [RegExp]. *)
Definition pattern_stateless (c : FieldConfig) : bool :=
  match rule_pattern (finalRules c) with
  | Some re => negb (re_global re || re_sticky re)
  | None => true
  end.

Definition stateless_patterns (fs : list (string * FieldConfig)) : Prop :=
  Forall (fun kc => pattern_stateless kc.2 = true) fs.

(** The [#fields] map keeps each config under its own [fieldName]. *)
Definition fields_keyed (fs : list (string * FieldConfig)) : Prop :=
  Forall (fun kc => fieldName kc.2 = kc.1) fs.

(* ================================================================== *)
(** * Proofs *)

Ltac unfold_m := unfold bind, ret, get, modify, throw in *.

(** ** Object spread is a right-biased union *)

Lemma obj_spread_union (acc src : RuleSet) : obj_spread acc src = src ∪ acc.
Proof.
  unfold obj_spread. induction src as [|i x m Hi IH] using map_ind.
  - rewrite map_fold_empty. by rewrite map_empty_union.
  - rewrite map_fold_insert_L; [| |done].
    + rewrite IH. by rewrite insert_union_l.
    + intros j1 j2 z1 z2 y Hne _ _. by apply insert_insert_ne.
Qed.

(** C2: [mergeRules] maps every key to the explicit value when the
    explicit rules have it, to the markup value when only the markup has
    it, and to nothing when neither has it. *)
Theorem mergeRules_override (htmlR : RuleSet) (jsR : option RuleSet) (k : string) :
  mergeRules htmlR jsR !! k =
    match default ∅ jsR !! k with
    | Some v => Some v
    | None => htmlR !! k
    end.
Proof.
  unfold mergeRules. rewrite !obj_spread_union, (right_id_L ∅ (∪)).
  rewrite lookup_union. destruct (default ∅ jsR !! k), (htmlR !! k); reflexivity.
Qed.

Section Proofs.
Context `{JsRuntime}.

(** C7: registering a field whose [input-{fieldName}] element does not
    resolve throws [Input not found: input-{fieldName}] and leaves the whole
    state (the [#fields] map included) as it was. *)
Theorem addField_missing_input (name : string) (ty : field_type) (r : option RuleSet) (s : state) :
  query (st_dom s) ("input-" +:+ name) = None ->
  addField name ty r s = (inl (InputNotFound ("Input not found: input-" +:+ name)), s).
Proof.
  intros Hq. unfold addField, extractHtmlRules. unfold_m. rewrite Hq. reflexivity.
Qed.

(** C6: an empty (after trimming) field whose rules do not set [required]
    has no violation, whatever its other rules, and nothing changes. *)
Theorem empty_optional_field_valid (config : FieldConfig) (s : state) (input : element) :
  query (st_dom s) ("input-" +:+ fieldName config) = Some input ->
  js_trim (el_value input) = "" ->
  rule_required (finalRules config) = false ->
  validateField config s = (inr None, s).
Proof.
  intros Hq Hv Hr. unfold validateField. unfold_m. rewrite Hq, Hv, Hr. reflexivity.
Qed.

(** C10: a non-empty value of a number field that [Number] turns into NaN
    passes both the [min] and the [max] check: no violation. *)
Theorem number_NaN_valid (config : FieldConfig) (s : state) (input : element) :
  type config = FNumber ->
  query (st_dom s) ("input-" +:+ fieldName config) = Some input ->
  js_trim (el_value input) <> "" ->
  js_Number (js_trim (el_value input)) = JNaN ->
  validateField config s = (inr None, s).
Proof.
  intros Ht Hq Hv Hn. unfold validateField. unfold_m. rewrite Hq, Ht. simpl.
  rewrite (bool_decide_eq_false_2 _ Hv), andb_false_r, Hn.
  destruct (rule_min (finalRules config)) as [[| |[]]|],
           (rule_max (finalRules config)) as [[| |[]]|]; reflexivity.
Qed.

(** [#validateField] reports the rule [violation_kind] finds, with its
    message. *)
Lemma validateField_violation_kind (config : FieldConfig) (s : state) :
  validateField config s =
    fmapM (fun k => match k with Some kind => mk_error config kind | None => None end)
          (violation_kind config) s.
Proof.
  unfold validateField, violation_kind, fmapM. unfold_m.
  destruct (query (st_dom s) ("input-" +:+ fieldName config)) as [input|]; [|reflexivity].
  destruct (rule_required (finalRules config) && _); [reflexivity|].
  destruct (bool_decide _); [reflexivity|].
  unfold rule_checks. simpl.
  destruct (is_number (type config)); cbn [first_violated]; unfold bind, ret; simpl;
    repeat case_match; congruence.
Qed.

Lemma violation_kind_kinds (config : FieldConfig) (s : state) (k : string) :
  fst (violation_kind config s) = inr (Some k) -> k ∈ violation_kinds.
Proof.
  unfold violation_kind, rule_checks. unfold_m. simpl.
  destruct (query _ _); [|simpl; congruence].
  destruct (is_number (type config)); cbn [first_violated]; unfold_m; simpl.
  all: repeat match goal with
         | |- context [regex_test ?re ?v ?s] =>
           destruct (regex_test re v s) as [[?|?] ?]; simpl
         | _ => case_match
         end; simpl; intros Hx; simplify_eq; unfold violation_kinds; set_solver.
Qed.

Lemma violation_kind_error (config : FieldConfig) (s : state) (e : ValidationError) :
  fst (validateField config s) = inr (Some e) ->
  exists kind, fst (violation_kind config s) = inr (Some kind) /\
    e = {| ve_fieldName := fieldName config;
           ve_message := resolve_message kind (finalRules config) |}.
Proof.
  rewrite validateField_violation_kind. unfold fmapM, bind, ret.
  destruct (violation_kind config s) as [[?|[kind|]] s']; simpl; intros Hx; try discriminate.
  unfold mk_error in Hx. injection Hx as <-. eauto.
Qed.

(** [RegExp.prototype.test] from index 0 answers whether the value
    matches. *)
Lemma regex_test_from_start (re : regex) (v : string) (s : state) :
  negb (re_sticky re) && (negb (re_global re) || Nat.eqb (st_lastIndex s (re_id re)) 0) = true ->
  fst (regex_test re v s) = inr (spec_matches re v).
Proof.
  intros Hp. apply andb_prop in Hp as [Hs Hg]. apply negb_true_iff in Hs.
  unfold regex_test, spec_matches, set_lastIndex. unfold_m. rewrite Hs, orb_false_r.
  assert (Hli : (if re_global re then st_lastIndex s (re_id re) else 0) = 0).
  { destruct (re_global re); simpl in Hg; [by apply Nat.eqb_eq|reflexivity]. }
  rewrite Hli, Nat.sub_0_r.
  replace (Nat.ltb (js_length v) 0) with false by (symmetry; apply Nat.ltb_ge; lia).
  destruct (re_search (re_match_at re) v 0 (S (js_length v))), (re_global re); reflexivity.
Qed.

(** C1 (amended): [#validateField] is the ordered, first-violation-wins
    algorithm: [required] on the trimmed value, then the emptiness stop,
    then for number fields [min] before [max], for the other types
    [minLength] before [maxLength] before [pattern] (the trimmed value
    fails to match); its single result carries the kind of that first
    violation.  This holds whenever the [pattern] is tested from index 0:
    not sticky and, if global, with [lastIndex] 0. *)
Theorem validateField_first_violation (config : FieldConfig) (s : state) :
  pattern_from_start config s = true ->
  fst (validateField config s) =
    inr (match spec_field_violation config s with Some kind => mk_error config kind | None => None end).
Proof.
  intros Hp. unfold pattern_from_start in Hp.
  unfold validateField, spec_field_violation. unfold_m. simpl.
  destruct (query (st_dom s) ("input-" +:+ fieldName config)) as [input|]; [|reflexivity].
  destruct (rule_required (finalRules config) && _); [reflexivity|].
  destruct (bool_decide _); [reflexivity|].
  unfold spec_checks. destruct (is_number (type config)); cbn [first_violation].
  - repeat case_match; reflexivity.
  - destruct (match rule_minLength (finalRules config) with Some m => _ | None => false end);
      [reflexivity|].
    destruct (match rule_maxLength (finalRules config) with Some m => _ | None => false end);
      [reflexivity|].
    destruct (rule_pattern (finalRules config)) as [re|]; [|reflexivity].
    pose proof (regex_test_from_start re (js_trim (el_value input)) s Hp) as Hr.
    destruct (regex_test re (js_trim (el_value input)) s) as [o s1]. simpl in Hr |- *. subst o.
    destruct (spec_matches re _); reflexivity.
Qed.

End Proofs.

(** ** Rendering writes only text and visibility *)

Definition values_preserved (g : list element -> list element) : Prop :=
  forall d Y, el_value <$> query (g d) Y = el_value <$> query d Y.

Lemma upd_first_values (X t disp : string) :
  values_preserved (upd_first X (set_error_el t disp)).
Proof.
  intros d Y. induction d as [|e d IH]; [reflexivity|]. simpl.
  destruct (bool_decide (el_id e = X)) eqn:HX; simpl.
  - apply bool_decide_eq_true_1 in HX. subst X.
    destruct (bool_decide (el_id e = Y)); reflexivity.
  - destruct (bool_decide (el_id e = Y)); [reflexivity|]. exact IH.
Qed.

Lemma values_preserved_compose g1 g2 :
  values_preserved g1 -> values_preserved g2 -> values_preserved (fun d => g1 (g2 d)).
Proof. intros H1 H2 d Y. by rewrite H1, H2. Qed.

Lemma values_preserved_id : values_preserved (fun d => d).
Proof. intros d Y. reflexivity. Qed.

Lemma clear_dom_values fs : values_preserved (clear_dom fs).
Proof.
  unfold clear_dom. induction fs as [|kv fs IH]; simpl.
  - apply values_preserved_id.
  - intros d Y. rewrite (IH _ Y). apply upd_first_values.
Qed.

Lemma render_values rs : values_preserved (render rs).
Proof.
  unfold render. induction rs as [|[e|] rs IH]; simpl.
  - apply values_preserved_id.
  - intros d Y. rewrite (IH _ Y). apply upd_first_values.
  - exact IH.
Qed.

(** ** Clearing absorbs earlier writes to the cleared elements *)

Lemma upd_first_commute X Y f g d :
  X <> Y ->
  (forall e, el_id (f e) = el_id e) -> (forall e, el_id (g e) = el_id e) ->
  upd_first X f (upd_first Y g d) = upd_first Y g (upd_first X f d).
Proof.
  intros Hne Hf Hg. induction d as [|e d IH]; [reflexivity|]. simpl.
  destruct (bool_decide (el_id e = Y)) eqn:HY, (bool_decide (el_id e = X)) eqn:HX; simpl.
  - apply bool_decide_eq_true_1 in HY, HX. congruence.
  - rewrite Hg, HX, HY. reflexivity.
  - rewrite Hf, HX, HY. reflexivity.
  - rewrite HX, HY, IH. reflexivity.
Qed.

Lemma upd_first_set_twice X a b c e d :
  upd_first X (set_error_el a b) (upd_first X (set_error_el c e) d) =
  upd_first X (set_error_el a b) d.
Proof.
  induction d as [|el d IH]; [reflexivity|]. simpl.
  destruct (bool_decide (el_id el = X)) eqn:HX; simpl.
  - rewrite HX. reflexivity.
  - rewrite HX, IH. reflexivity.
Qed.

Definition error_ids (fs : list (string * FieldConfig)) : list string :=
  map (fun kv => "error-" +:+ kv.1) fs.

Lemma clear_dom_absorb fs X t disp d :
  X ∈ error_ids fs ->
  clear_dom fs (upd_first X (set_error_el t disp) d) = clear_dom fs d.
Proof.
  unfold clear_dom. revert d. induction fs as [|kv fs IH]; intros d HX; simpl.
  - by apply not_elem_of_nil in HX.
  - destruct (decide (X = "error-" +:+ kv.1)) as [->|Hne].
    + by rewrite upd_first_set_twice.
    + rewrite upd_first_commute by (done || (intros; reflexivity)).
      apply IH. simpl in HX. apply elem_of_cons in HX. tauto.
Qed.

Lemma clear_dom_render fs rs d :
  Forall (fun r => match r with Some e => ("error-" +:+ ve_fieldName e) ∈ error_ids fs | None => True end) rs ->
  clear_dom fs (render rs d) = clear_dom fs d.
Proof.
  unfold render. revert d. induction rs as [|r rs IH]; intros d Hrs; simpl; [reflexivity|].
  inversion Hrs as [|? ? Hr Hrest]; subst.
  rewrite IH by done. destruct r as [e|]; [|reflexivity].
  by apply clear_dom_absorb.
Qed.

Lemma clear_dom_idem fs d : clear_dom fs (clear_dom fs d) = clear_dom fs d.
Proof.
  assert (Hgen : forall (l : list (string * FieldConfig)) d,
            Forall (fun kv => ("error-" +:+ kv.1) ∈ error_ids fs) l ->
            clear_dom fs (foldl (fun d kv => upd_first ("error-" +:+ kv.1) (set_error_el "" "none") d) d l)
            = clear_dom fs d).
  { induction l as [|kv l IH]; intros d0 Hl; simpl; [reflexivity|].
    inversion Hl; subst. rewrite IH by done. by apply clear_dom_absorb. }
  apply Hgen. apply Forall_forall. intros kv Hkv. unfold error_ids.
  apply list_elem_of_In. apply (in_map (fun kv : string * FieldConfig => "error-" +:+ kv.1)).
  by apply list_elem_of_In.
Qed.

(** ** What a field check reads and writes *)

Section FieldCheck.
Context `{JsRuntime}.

Lemma regex_test_with_dom re v g s :
  regex_test re v (with_dom g s) =
    (fst (regex_test re v s), with_dom g (snd (regex_test re v s))).
Proof.
  unfold regex_test, set_lastIndex. unfold_m. simpl.
  destruct (re_global re || re_sticky re); simpl; repeat case_match; reflexivity.
Qed.

Lemma regex_test_ok re v s :
  (exists b, fst (regex_test re v s) = inr b) /\
  st_dom (snd (regex_test re v s)) = st_dom s /\
  st_fields (snd (regex_test re v s)) = st_fields s.
Proof.
  unfold regex_test, set_lastIndex. unfold_m. simpl.
  destruct (re_global re || re_sticky re); simpl; repeat case_match; simpl; eauto.
Qed.

Lemma regex_test_stateless re v s :
  re_global re = false -> re_sticky re = false -> snd (regex_test re v s) = s.
Proof.
  intros Hg Hs. unfold regex_test, set_lastIndex. unfold_m. rewrite Hg, Hs. simpl.
  repeat case_match; reflexivity.
Qed.

Lemma validateField_with_dom config g s :
  values_preserved g ->
  validateField config (with_dom g s) =
    (fst (validateField config s), with_dom g (snd (validateField config s))).
Proof.
  intros Hg. specialize (Hg (st_dom s) ("input-" +:+ fieldName config)).
  unfold validateField. unfold_m. simpl.
  destruct (query (g (st_dom s)) _) as [i1|], (query (st_dom s) _) as [i2|];
    simpl in Hg; try discriminate; [|reflexivity].
  injection Hg as Hv. rewrite Hv.
  repeat match goal with
         | |- context [regex_test ?re ?v (with_dom ?g ?s)] => rewrite (regex_test_with_dom re v g s)
         | _ => case_match
         end; simpl in *; congruence.
Qed.

End FieldCheck.

Section FieldCheck2.
Context `{JsRuntime}.

Definition field_error (config : FieldConfig) (e : ValidationError) : Prop :=
  exists kind, e = {| ve_fieldName := fieldName config;
                      ve_message := resolve_message kind (finalRules config) |}.

Lemma validateField_ok config s :
  exists r, fst (validateField config s) = inr r /\
    st_dom (snd (validateField config s)) = st_dom s /\
    st_fields (snd (validateField config s)) = st_fields s /\
    (forall e, r = Some e -> field_error config e).
Proof.
  unfold validateField, mk_error, field_error. unfold_m. simpl.
  repeat match goal with
         | |- context [regex_test ?re ?v ?s] =>
           let E := fresh "E" in
           destruct (regex_test re v s) as [[?|?] ?] eqn:E;
           pose proof (regex_test_ok re v s) as [[? ?] [? ?]]; rewrite E in *; simpl in *;
           [discriminate|]
         | _ => case_match
         end; simpl;
  (eexists; split; [reflexivity|]); repeat split; try congruence;
  intros ? ?; simplify_eq; eauto.
Qed.

Lemma validateField_stateless config s :
  pattern_stateless config = true -> snd (validateField config s) = s.
Proof.
  unfold pattern_stateless. intros Hp.
  unfold validateField. unfold_m. simpl.
  destruct (rule_pattern (finalRules config)) as [re|] eqn:Hr.
  - apply negb_true_iff, orb_false_iff in Hp as [Hg Hs].
    repeat match goal with
           | |- context [regex_test re ?v ?s] =>
             pose proof (regex_test_stateless re v s Hg Hs);
             destruct (regex_test re v s) as [[?|[]] ?]; simpl in *; subst; reflexivity
           | _ => case_match
           end; reflexivity.
  - repeat case_match; reflexivity.
Qed.

Lemma eval_fields_with_dom fs g s :
  values_preserved g ->
  eval_fields fs (with_dom g s) = (fst (eval_fields fs s), with_dom g (snd (eval_fields fs s))).
Proof.
  intros Hg. revert s. induction fs as [|[k c] fs IH]; intros s; [reflexivity|].
  simpl. unfold bind. rewrite (validateField_with_dom c g s Hg).
  destruct (validateField c s) as [[e|r] s1]; simpl; [reflexivity|].
  rewrite IH. destruct (eval_fields fs s1) as [[e|rs] s2]; reflexivity.
Qed.

Lemma eval_fields_ok fs s :
  exists rs, fst (eval_fields fs s) = inr rs /\
    st_fields (snd (eval_fields fs s)) = st_fields s /\
    Forall (fun r => match r with
                     | Some e => exists k c, In (k, c) fs /\ field_error c e
                     | None => True end) rs.
Proof.
  revert s. induction fs as [|[k c] fs IH]; intros s.
  - exists []. simpl. auto.
  - simpl. unfold bind.
    destruct (validateField_ok c s) as (r & Hr & _ & Hf & He).
    destruct (validateField c s) as [r0 s1]. simpl in *. subst r0.
    destruct (IH s1) as (rs & Hrs & Hf2 & Hall).
    destruct (eval_fields fs s1) as [r1 s2]. unfold ret. simpl in *. subst r1.
    exists (r :: rs). split; [reflexivity|]. split; [simpl; congruence|].
    constructor.
    + destruct r as [e|]; [|exact I]. exists k, c. split; [left; reflexivity|]. by apply He.
    + eapply Forall_impl; [exact Hall|]. intros [e|] H0; [|exact I].
      destruct H0 as (k' & c' & Hin & He'). exists k', c'. split; [right; exact Hin|exact He'].
Qed.

Lemma eval_fields_stateless fs s :
  stateless_patterns fs -> snd (eval_fields fs s) = s.
Proof.
  intros Hp. revert s. induction fs as [|[k c] fs IH]; intros s; [reflexivity|].
  inversion Hp as [|? ? Hc Hrest]; subst. simpl. unfold bind.
  pose proof (validateField_stateless c s Hc) as Hs.
  destruct (validateField_ok c s) as (r & Hr & _).
  destruct (validateField c s) as [r0 s1]. simpl in *. subst.
  specialize (IH Hrest s). destruct (eval_fields fs s) as [r1 s2] eqn:E.
  destruct (eval_fields_ok fs s) as (rs & Hrs & _). rewrite E in Hrs. simpl in *. subst. reflexivity.
Qed.

Lemma validate_loop_eval fs : forall b s rs s2,
  eval_fields fs s = (inr rs, s2) ->
  validate_loop fs b s = (inr (b && forallb is_none rs), with_dom (render rs) s2).
Proof.
  induction fs as [|[k c] fs IH]; intros b s rs s2 Hev.
  - simpl in Hev. unfold ret in Hev. injection Hev as <- <-. simpl.
    rewrite andb_true_r. destruct s; reflexivity.
  - simpl in Hev |- *. unfold bind in Hev |- *.
    destruct (validateField c s) as [[e|[err|]] s1]; [discriminate| |].
    + destruct (eval_fields fs s1) as [[e|rs'] s3] eqn:E; [discriminate|].
      unfold ret in Hev. injection Hev as <- <-.
      unfold showError, modify.
      rewrite (IH false _ rs' (with_dom (upd_first ("error-" +:+ ve_fieldName err)
                  (set_error_el (ve_message err) "block")) s3)).
      * rewrite andb_false_r. reflexivity.
      * rewrite eval_fields_with_dom by apply upd_first_values. rewrite E. reflexivity.
    + destruct (eval_fields fs s1) as [[e|rs'] s3] eqn:E; [discriminate|].
      unfold ret in Hev. injection Hev as <- <-.
      rewrite (IH b _ rs' s3 E). reflexivity.
Qed.

Lemma validate_two_phase s :
  exists rs s2,
    eval_fields (st_fields s) (with_dom (clear_dom (st_fields s)) s) = (inr rs, s2) /\
    validate s = (inr (forallb is_none rs), with_dom (render rs) s2).
Proof.
  destruct (eval_fields_ok (st_fields s) (with_dom (clear_dom (st_fields s)) s)) as (rs & Hrs & _).
  destruct (eval_fields (st_fields s) (with_dom (clear_dom (st_fields s)) s)) as [r s2] eqn:E.
  simpl in Hrs. subst r. exists rs, s2. split; [reflexivity|].
  unfold validate, clearErrors. unfold_m. simpl.
  rewrite (validate_loop_eval _ true _ rs s2 E). reflexivity.
Qed.

End FieldCheck2.

(** ** Registration keeps to the legal keys *)

Section Registration.
Context `{JsRuntime}.

Lemma legal_rules_empty ty : legal_rules ty ∅.
Proof. apply map_Forall_empty. Qed.

Lemma extractHtmlRules_legal name ty s hr :
  fst (extractHtmlRules name ty s) = inr hr -> legal_rules ty hr.
Proof.
  unfold extractHtmlRules, new_regex, legal_rules. unfold_m. simpl.
  destruct (query (st_dom s) _) as [input|]; simpl; [|discriminate].
  destruct ty; simpl; repeat case_match; simpl; intros Hr; simplify_eq;
    repeat (apply map_Forall_insert_2; [set_solver|]); apply map_Forall_empty.
Qed.

Lemma extractHtmlRules_fields name ty s :
  st_fields (snd (extractHtmlRules name ty s)) = st_fields s.
Proof.
  unfold extractHtmlRules, new_regex. unfold_m. simpl.
  destruct (query (st_dom s) _) as [input|]; simpl; [|reflexivity].
  destruct ty; simpl; repeat case_match; simplify_eq/=; reflexivity.
Qed.

Lemma mergeRules_legal ty h j :
  legal_rules ty h -> legal_rules ty (default ∅ j) -> legal_rules ty (mergeRules h j).
Proof.
  unfold mergeRules, legal_rules. rewrite !obj_spread_union, (right_id_L ∅ (∪)).
  intros Hh Hj. by apply map_Forall_union_2.
Qed.

Lemma map_set_Forall (P : string * FieldConfig -> Prop) fs k v :
  Forall P fs -> P (k, v) -> Forall P (map_set fs k v).
Proof.
  intros Hfs Hkv. induction Hfs as [|[k' v'] fs Hx Hfs IH]; simpl.
  - by constructor.
  - case_bool_decide; constructor; auto.
Qed.

Lemma addField_legal name ty r s :
  fields_legal (st_fields s) -> legal_rules ty (default ∅ r) ->
  fields_legal (st_fields (snd (addField name ty r s))).
Proof.
  intros Hs Hr. unfold addField. unfold_m.
  pose proof (extractHtmlRules_legal name ty s) as Hl.
  pose proof (extractHtmlRules_fields name ty s) as Hf.
  destruct (extractHtmlRules name ty s) as [[e|hr] s1]; simpl in *.
  - by rewrite Hf.
  - apply map_set_Forall; [by rewrite Hf|]. simpl.
    apply mergeRules_legal; [by apply Hl|exact Hr].
Qed.

End Registration.

(** ** Concrete scenarios (the runtime of [ExampleRuntime]) *)

Definition after {A} (m : M A) (s : state) : state := snd (run m s).

Definition scenario (name : string) (ty : field_type) (r : list rule_entry) (value : string) : state :=
  after (addField name ty (Some (mk_rules r))) (init_state (field_elems name value [])).

(** Scenario C: [age] with [{min: 18, max: 100}]. *)
Example scenario_C :
  fst (validate (scenario "age" FNumber [RMin (Some (JFin 18)); RMax (Some (JFin 100))] "15")) = inr false /\
  fst (validate (scenario "age" FNumber [RMin (Some (JFin 18)); RMax (Some (JFin 100))] "18")) = inr true.
Proof. split; vm_compute; reflexivity. Qed.

(** Markup rules: [required] and [pattern] attributes are picked up. *)
Example markup_rules :
  error_text (after validate (after (addField "code" FText None)
     (init_state (field_elems "code" " x " [("pattern", "abc"); ("required", "")])))) "code"
  = Some "Неверный формат".
Proof. vm_compute. reflexivity. Qed.

(** A global [RegExp] object shared by the rules. *)
Definition re_abc_g : regex :=
  {| re_id := 1; re_global := true; re_sticky := false; re_match_at := ExampleRuntime.literal "abc" |}.

Definition re_x : regex :=
  {| re_id := 2; re_global := false; re_sticky := false; re_match_at := ExampleRuntime.literal "x" |}.

Definition scenario_E : state :=
  scenario "username" FText [RRequired (Some true); RGetMessage (Some "Custom")] "".

Definition config_E : FieldConfig :=
  {| fieldName := "username"; type := FText;
     rules := mk_rules [RRequired (Some true); RGetMessage (Some "Custom")];
     htmlRules := ∅;
     finalRules := mk_rules [RRequired (Some true); RGetMessage (Some "Custom")] |}.

(** ** The claims about [validate], messages and registration *)

Section Claims.
Context `{JsRuntime}.

(** C3: [validate()] first clears the error element of every registered
    field ([clear_dom]), then evaluates every registered field in [#fields]
    order, each in the state the previous one left ([eval_fields]),
    renders the message of every violating field, without stopping at the
    first ([render]), and returns true iff no field had a violation; a
    field whose input element is missing is skipped with no violation. *)
Theorem validate_clears_then_checks_all (s : state) :
  (exists rs s2,
     eval_fields (st_fields s) (with_dom (clear_dom (st_fields s)) s) = (inr rs, s2) /\
     validate s = (inr (forallb is_none rs), with_dom (render rs) s2)) /\
  (forall config s', query (st_dom s') ("input-" +:+ fieldName config) = None ->
     validateField config s' = (inr None, s')).
Proof.
  split.
  - apply validate_two_phase.
  - intros config s' Hq. unfold validateField. unfold_m. rewrite Hq. reflexivity.
Qed.

(** C4 (amended): for a violation on a field whose rules have a
    [getMessage] returning [m], the message is [m] when [m] is not empty;
    an empty [m] falls back ([||]) to the default-table text of the
    violated rule. *)
Theorem getMessage_nonempty_verbatim (config : FieldConfig) (s : state)
    (e : ValidationError) (m : string) :
  fst (validateField config s) = inr (Some e) ->
  rule_getMessage (finalRules config) = Some m ->
  (m <> "" -> ve_message e = m) /\
  (m = "" -> exists kind, fst (violation_kind config s) = inr (Some kind) /\
     kind ∈ violation_kinds /\
     ve_message e = getDefaultErrorMessage kind (finalRules config)).
Proof.
  intros He Hm. destruct (violation_kind_error config s e He) as (kind & Hk & ->).
  pose proof (violation_kind_kinds config s kind Hk) as Hkk. simpl.
  unfold resolve_message. rewrite Hm. split.
  - intros Hne. by rewrite bool_decide_eq_false_2.
  - intros ->. exists kind. rewrite bool_decide_true by reflexivity. auto.
Qed.

(** C5 (amended): with no [getMessage], a [required] violation reads
    "Это поле обязательно" and a [minLength] violation reads
    "Минимум {minLength} символов". *)
Theorem default_messages_text (rules : RuleSet) :
  rule_getMessage rules = None ->
  resolve_message "required" rules = "Это поле обязательно" /\
  resolve_message "minLength" rules =
    "Минимум " +:+ num_prop_to_string (rule_minLength rules) +:+ " символов".
Proof.
  intros Hm. unfold resolve_message. rewrite Hm.
  unfold getDefaultErrorMessage. simpl. split; reflexivity.
Qed.

(** C8 (amended): the markup-derived rules only have keys legal for the
    field type, and [#mergeRules] does not filter the explicit rules, so
    after any chain of registrations whose explicit rules are legal for
    their types, every stored [finalRules] has only legal keys. *)
Theorem registrations_keep_legal_keys (regs : list (string * field_type * option RuleSet)) (s : state) :
  fields_legal (st_fields s) ->
  Forall (fun reg => legal_rules reg.1.2 (default ∅ reg.2)) regs ->
  fields_legal (st_fields (snd (register_all regs s))).
Proof.
  revert s. induction regs as [|[[name ty] r] regs IH]; intros s Hs Hregs; [exact Hs|].
  inversion Hregs as [|? ? Hr Hrest]; subst. simpl. unfold bind.
  pose proof (addField_legal name ty r s Hs Hr) as Ha.
  destruct (addField name ty r s) as [[e|[]] s1]; simpl in *; [exact Ha|].
  by apply IH.
Qed.

(** C9 (amended): when no registered [pattern] is a global or sticky
    [RegExp] (whose [lastIndex] [test] moves), a second [validate()] with
    unchanged values returns the same result and leaves the same state,
    rendered messages included. *)
Theorem validate_idempotent_stateless (s : state) :
  stateless_patterns (st_fields s) -> fields_keyed (st_fields s) ->
  validate (snd (validate s)) = validate s.
Proof.
  intros Hp Hk. set (fs := st_fields s).
  destruct (eval_fields_ok fs s) as (rs0 & Hrs0 & _ & Hall).
  pose proof (eval_fields_stateless fs s Hp) as Hst.
  destruct (validate_two_phase s) as (rs & s2 & Hev & Hval).
  rewrite (eval_fields_with_dom fs _ s (clear_dom_values fs)) in Hev.
  rewrite Hrs0, Hst in Hev. injection Hev as <- <-.
  rewrite Hval. simpl.
  destruct (validate_two_phase (with_dom (render rs0) (with_dom (clear_dom fs) s)))
    as (rs' & s2' & Hev' & Hval').
  simpl in Hev'. change (st_fields s) with fs in Hev'.
  assert (Hsc : with_dom (clear_dom fs) (with_dom (render rs0) (with_dom (clear_dom fs) s)) =
                with_dom (fun d => clear_dom fs (render rs0 (clear_dom fs d))) s) by reflexivity.
  rewrite Hsc in Hev'.
  rewrite (eval_fields_with_dom fs _ s) in Hev'.
  2: { apply values_preserved_compose; [apply clear_dom_values|].
       apply values_preserved_compose; [apply render_values|apply clear_dom_values]. }
  rewrite Hrs0, Hst in Hev'. injection Hev' as <- <-.
  rewrite Hval'. unfold with_dom. simpl. do 3 f_equal.
  rewrite clear_dom_render; [apply clear_dom_idem|].
  eapply Forall_impl; [exact Hall|]. intros [e|] He; [|exact I].
  destruct He as (k & c & Hin & kind & ->). simpl.
  assert (Hkc : fieldName c = k).
  { unfold fields_keyed in Hk. rewrite Forall_forall in Hk.
    apply (Hk (k, c)). by apply list_elem_of_In. }
  rewrite Hkc. unfold error_ids. apply list_elem_of_In.
  apply (in_map (fun kv : string * FieldConfig => "error-" +:+ kv.1) fs (k, c)). exact Hin.
Qed.

End Claims.

(** ** Witnesses and counterexamples on concrete inputs *)

Definition state_user (value : string) : state := init_state (field_elems "username" value []).

Definition config_opt : FieldConfig :=
  let r := mk_rules [RMinLength (Some (JFin 3)); RMaxLength (Some (JFin 5)); RPattern (Some re_x)] in
  {| fieldName := "username"; type := FText; rules := r; htmlRules := ∅; finalRules := r |}.

Definition input_user (value : string) : element :=
  {| el_id := "input-username"; el_value := value; el_attrs := []; el_text := ""; el_display := "" |}.

Lemma empty_optional_field_valid_witness :
  query (st_dom (state_user "   ")) ("input-" +:+ fieldName config_opt) = Some (input_user "   ") /\
  js_trim (el_value (input_user "   ")) = "" /\
  rule_required (finalRules config_opt) = false /\
  validateField config_opt (state_user "   ") = (inr None, state_user "   ").
Proof.
  refine (conj _ (conj _ (conj _ _))); [vm_compute; reflexivity .. |].
  apply (empty_optional_field_valid config_opt (state_user "   ") (input_user "   "));
    vm_compute; reflexivity.
Defined.

Lemma addField_missing_input_witness :
  query (st_dom (state_user "")) ("input-" +:+ "nonexistent") = None /\
  addField "nonexistent" FText None (state_user "") =
    (inl (InputNotFound ("Input not found: input-" +:+ "nonexistent")), state_user "").
Proof.
  split; [vm_compute; reflexivity|].
  apply (addField_missing_input "nonexistent" FText None (state_user "")).
  vm_compute. reflexivity.
Defined.

Definition config_age : FieldConfig :=
  let r := mk_rules [RRequired (Some true); RMin (Some (JFin 18)); RMax (Some (JFin 100))] in
  {| fieldName := "age"; type := FNumber; rules := r; htmlRules := ∅; finalRules := r |}.

Definition state_age (value : string) : state := init_state (field_elems "age" value []).

Definition input_age (value : string) : element :=
  {| el_id := "input-age"; el_value := value; el_attrs := []; el_text := ""; el_display := "" |}.

Lemma number_NaN_valid_witness :
  type config_age = FNumber /\
  query (st_dom (state_age "abc")) ("input-" +:+ fieldName config_age) = Some (input_age "abc") /\
  js_trim (el_value (input_age "abc")) <> "" /\
  js_Number (js_trim (el_value (input_age "abc"))) = JNaN /\
  validateField config_age (state_age "abc") = (inr None, state_age "abc").
Proof.
  refine (conj _ (conj _ (conj _ (conj _ _)))); [reflexivity | vm_compute; reflexivity
    | vm_compute; discriminate | vm_compute; reflexivity |].
  apply (number_NaN_valid config_age (state_age "abc") (input_age "abc"));
    [reflexivity | vm_compute; reflexivity | vm_compute; discriminate | vm_compute; reflexivity].
Defined.

(** Scenario E: [getMessage: () => "Custom"] on a [required] violation. *)
Definition error_E : ValidationError := {| ve_fieldName := "username"; ve_message := "Custom" |}.

Lemma getMessage_nonempty_verbatim_witness :
  fst (validateField config_E (state_user "")) = inr (Some error_E) /\
  rule_getMessage (finalRules config_E) = Some "Custom" /\
  ve_message error_E = "Custom".
Proof.
  refine (conj _ (conj _ _)); [vm_compute; reflexivity .. |].
  apply (getMessage_nonempty_verbatim config_E (state_user "") error_E "Custom");
    [vm_compute; reflexivity | vm_compute; reflexivity | discriminate].
Defined.

(** A [getMessage] returning the empty string is replaced by the default
    text: the rendered message is not what [getMessage] returned. *)
Lemma getMessage_empty_replaced :
  rule_getMessage (mk_rules [RRequired (Some true); RGetMessage (Some "")]) = Some "" /\
  error_text (after validate (scenario "username" FText
                [RRequired (Some true); RGetMessage (Some "")] "")) "username"
    = Some "Это поле обязательно".
Proof. split; vm_compute; reflexivity. Qed.

(** Scenarios A and B: the default table is in Russian. *)
Lemma default_messages_not_english :
  error_text (after validate (scenario "username" FText
                [RRequired (Some true); RMinLength (Some (JFin 3))] "")) "username"
    = Some "Это поле обязательно" /\
  error_text (after validate (scenario "username" FText [RMinLength (Some (JFin 5))] "John")) "username"
    = Some "Минимум 5 символов" /\
  Some "Это поле обязательно" <> Some "This field is required" /\
  Some "Минимум 5 символов" <> Some "Minimum 5 characters".
Proof. refine (conj _ (conj _ (conj _ _))); vm_compute; [reflexivity | reflexivity | discriminate | discriminate]. Qed.

Lemma default_messages_text_witness :
  rule_getMessage (mk_rules [RMinLength (Some (JFin 5))]) = None /\
  resolve_message "minLength" (mk_rules [RMinLength (Some (JFin 5))]) = "Минимум 5 символов".
Proof.
  split; [vm_compute; reflexivity|].
  destruct (default_messages_text (mk_rules [RMinLength (Some (JFin 5))])) as [_ Hmin];
    [vm_compute; reflexivity|].
  rewrite Hmin. vm_compute. reflexivity.
Defined.

(** A number field registered with explicit rules carrying [pattern]
    (legal TypeScript through a non-literal object) keeps that key. *)
Lemma number_field_keeps_pattern :
  ~ fields_legal (st_fields (scenario "age" FNumber [RMin (Some (JFin 18)); RPattern (Some re_x)] "20")).
Proof. apply (bool_decide_eq_false_1 _). vm_compute. reflexivity. Qed.

Definition regs_ok : list (string * field_type * option RuleSet) :=
  [("age", FNumber, Some (mk_rules [RMin (Some (JFin 18))]));
   ("username", FText, Some (mk_rules [RMinLength (Some (JFin 3)); RPattern (Some re_x)]))].

Definition state_two : state :=
  init_state (field_elems "age" "20" [("max", "99")] ++ field_elems "username" "x" [("required", "")]).

Lemma registrations_keep_legal_keys_witness :
  fields_legal (st_fields state_two) /\
  Forall (fun reg => legal_rules reg.1.2 (default ∅ reg.2)) regs_ok /\
  fields_legal (st_fields (snd (register_all regs_ok state_two))).
Proof.
  refine (conj _ (conj _ _)); [apply (bool_decide_eq_true_1 _); vm_compute; reflexivity .. |].
  apply registrations_keep_legal_keys; apply (bool_decide_eq_true_1 _); vm_compute; reflexivity.
Defined.

(** A global [RegExp] in [pattern]: [test] moves its [lastIndex], so a
    second [validate()] on the same value fails where the first passed. *)
Lemma validate_not_idempotent_global_regex :
  fst (validate (scenario "code" FText [RPattern (Some re_abc_g)] "abc")) = inr true /\
  fst (validate (snd (validate (scenario "code" FText [RPattern (Some re_abc_g)] "abc")))) = inr false.
Proof. split; vm_compute; reflexivity. Qed.

Definition state_code : state := scenario "code" FText [RPattern (Some re_x)] "y".

Lemma validate_idempotent_stateless_witness :
  stateless_patterns (st_fields state_code) /\ fields_keyed (st_fields state_code) /\
  validate (snd (validate state_code)) = validate state_code.
Proof.
  refine (conj _ (conj _ _)); [apply (bool_decide_eq_true_1 _); vm_compute; reflexivity .. |].
  apply validate_idempotent_stateless; apply (bool_decide_eq_true_1 _); vm_compute; reflexivity.
Defined.

(** A global [pattern] in a fresh state ([lastIndex] 0): the value
    "xab" does not contain "abc". *)
Definition config_code_g : FieldConfig :=
  let r := mk_rules [RMinLength (Some (JFin 2)); RPattern (Some re_abc_g)] in
  {| fieldName := "code"; type := FText; rules := r; htmlRules := ∅; finalRules := r |}.

Definition state_code_g (value : string) : state := init_state (field_elems "code" value []).

Lemma validateField_first_violation_witness :
  pattern_from_start config_code_g (state_code_g " xab ") = true /\
  fst (validateField config_code_g (state_code_g " xab ")) =
    inr (match spec_field_violation config_code_g (state_code_g " xab ") with
         | Some kind => mk_error config_code_g kind | None => None end) /\
  spec_field_violation config_code_g (state_code_g " xab ") = Some "pattern".
Proof.
  refine (conj _ (conj _ _)); [vm_compute; reflexivity | | vm_compute; reflexivity].
  apply validateField_first_violation. vm_compute. reflexivity.
Defined.

(** After one [validate()] on "abc" with the global [/abc/], [lastIndex]
    is 3: the value matches the pattern, so the specification's algorithm
    finds no violation, yet the code reports a [pattern] violation and
    renders "Неверный формат". *)
Definition state_abc_validated : state :=
  after validate (scenario "code" FText [RPattern (Some re_abc_g)] "abc").

Lemma pattern_violation_on_matching_value :
  Forall (fun kc => spec_field_violation kc.2 state_abc_validated = None) (st_fields state_abc_validated) /\
  Forall (fun kc => fst (validateField kc.2 state_abc_validated) = inr (mk_error kc.2 "pattern"))
         (st_fields state_abc_validated) /\
  error_text (after validate state_abc_validated) "code" = Some "Неверный формат".
Proof.
  refine (conj _ (conj _ _)); [apply (bool_decide_eq_true_1 _); vm_compute; reflexivity
    | vm_compute; repeat constructor | vm_compute; reflexivity].
Qed.

(* ================================================================== *)
(** * Further properties of the class *)

Lemma err_inj a b : "error-" +:+ a = "error-" +:+ b -> a = b.
Proof. apply (inj (String.app "error-")). Qed.

Lemma query_upd_first X Y f d :
  (forall e, el_id (f e) = el_id e) ->
  query (upd_first X f d) Y = if bool_decide (X = Y) then f <$> query d Y else query d Y.
Proof.
  intros Hf. induction d as [|e d IH]; simpl; [by case_bool_decide|].
  destruct (bool_decide (el_id e = X)) eqn:HX; simpl.
  - apply bool_decide_eq_true_1 in HX. rewrite Hf, HX.
    destruct (bool_decide (X = Y)); reflexivity.
  - rewrite IH. apply bool_decide_eq_false_1 in HX.
    case_bool_decide as HY; subst; [|reflexivity].
    case_bool_decide; [congruence|reflexivity].
Qed.

Lemma set_error_el_twice a b c e el :
  set_error_el a b (set_error_el c e el) = set_error_el a b el.
Proof. reflexivity. Qed.

Lemma query_clear_dom fs d Y :
  query (clear_dom fs d) Y =
    if bool_decide (Y ∈ error_ids fs) then set_error_el "" "none" <$> query d Y else query d Y.
Proof.
  unfold clear_dom, error_ids. revert d. induction fs as [|kv fs IH]; intros d; simpl.
  - reflexivity.
  - rewrite IH, query_upd_first by reflexivity.
    destruct (decide (Y = "error-" +:+ kv.1)) as [->|Hne].
    + rewrite (bool_decide_true (_ = _)) by reflexivity.
      rewrite (bool_decide_true (_ ∈ _ :: _)) by (apply elem_of_cons; left; reflexivity).
      case_bool_decide; [|reflexivity]. by destruct (query d _).
    + rewrite !(bool_decide_false ("error-" +:+ kv.1 = Y)) by congruence.
      destruct (bool_decide (Y ∈ map _ fs)) eqn:E1, (bool_decide (Y ∈ _ :: _)) eqn:E2;
        try reflexivity; exfalso.
      * apply bool_decide_eq_true_1 in E1. apply bool_decide_eq_false_1 in E2.
        apply E2, elem_of_cons. auto.
      * apply bool_decide_eq_false_1 in E1. apply bool_decide_eq_true_1 in E2.
        apply elem_of_cons in E2 as [?|?]; auto.
Qed.

Definition keyed_results (fs : list (string * FieldConfig)) (rs : list (option ValidationError)) : Prop :=
  Forall2 (fun kc r => match r with Some e => ve_fieldName e = kc.1 | None => True end) fs rs.

Lemma elem_of_map_2 {A B} (f : A -> B) (l : list A) x : x ∈ l -> f x ∈ map f l.
Proof. rewrite !list_elem_of_In. apply in_map. Qed.

Lemma render_cons r rs d :
  render (r :: rs) d =
    render rs (match r with
               | Some e => upd_first ("error-" +:+ ve_fieldName e) (set_error_el (ve_message e) "block") d
               | None => d
               end).
Proof. reflexivity. Qed.

Lemma query_render_other fs rs d Y :
  keyed_results fs rs -> Y ∉ error_ids fs -> query (render rs d) Y = query d Y.
Proof.
  intros Hk. revert d. induction Hk as [|kv r fs rs Hr Hk IH]; intros d HY; [reflexivity|].
  rewrite render_cons. unfold error_ids in HY. simpl in HY. rewrite elem_of_cons in HY.
  rewrite IH by (unfold error_ids; tauto).
  destruct r as [e|]; [|reflexivity].
  rewrite query_upd_first by reflexivity. rewrite Hr.
  rewrite bool_decide_false; [reflexivity|]. intros Heq. subst Y. tauto.
Qed.

Lemma query_render_at fs rs d i k c r :
  keyed_results fs rs -> NoDup (map fst fs) -> fs !! i = Some (k, c) -> rs !! i = Some r ->
  query (render rs d) ("error-" +:+ k) =
    match r with
    | Some e => set_error_el (ve_message e) "block" <$> query d ("error-" +:+ k)
    | None => query d ("error-" +:+ k)
    end.
Proof.
  intros Hk. revert d i. induction Hk as [|kv r0 fs rs Hr Hk IH]; intros d i Hnd Hi Hri;
    [by rewrite lookup_nil in Hi|].
  simpl in Hnd. apply NoDup_cons in Hnd as [Hnot Hnd].
  rewrite render_cons.
  destruct i as [|j]; simpl in Hi, Hri.
  - injection Hi as Hkv. subst kv. injection Hri as Hr0. subst r0.
    rewrite query_render_other with (fs := fs); [|exact Hk|].
    + destruct r as [e|]; [|reflexivity].
      rewrite query_upd_first by reflexivity. rewrite Hr. by rewrite bool_decide_true.
    + unfold error_ids. intros Hin. apply list_elem_of_In, in_map_iff in Hin as ([k' c'] & Hkk & Hin).
      simpl in *. apply err_inj in Hkk. subst k'. apply Hnot. apply list_elem_of_In.
      apply (in_map fst _ (k, c')). exact Hin.
  - rewrite (IH _ j Hnd Hi Hri).
    assert (Hne : kv.1 <> k).
    { intros <-. apply Hnot. apply list_elem_of_In. apply (in_map fst _ (kv.1, c)).
      apply list_elem_of_In. by eapply list_elem_of_lookup_2. }
    destruct r0 as [e0|]; [|reflexivity].
    rewrite query_upd_first by reflexivity. rewrite Hr.
    rewrite bool_decide_false; [reflexivity|]. intros Heq. by apply err_inj in Heq.
Qed.


Section FieldKinds.
Context `{JsRuntime}.

Definition kind_error (config : FieldConfig) (e : ValidationError) : Prop :=
  exists kind, kind ∈ violation_kinds /\
    e = {| ve_fieldName := fieldName config;
           ve_message := resolve_message kind (finalRules config) |}.

Lemma validateField_kind config s e :
  fst (validateField config s) = inr (Some e) -> kind_error config e.
Proof.
  unfold validateField, mk_error, kind_error. unfold_m. simpl.
  repeat match goal with
         | |- context [regex_test ?re ?v ?s] =>
           let E := fresh "E" in
           destruct (regex_test re v s) as [[?|?] ?] eqn:E; simpl
         | _ => case_match
         end; simpl; intros Hx; simplify_eq; eexists; (split; [|reflexivity]); unfold violation_kinds; set_solver.
Qed.

Lemma eval_fields_results fs s rs :
  fst (eval_fields fs s) = inr rs ->
  Forall2 (fun kc r => forall e, r = Some e -> kind_error kc.2 e) fs rs.
Proof.
  revert s rs. induction fs as [|[k c] fs IH]; intros s rs Hrs.
  - simpl in Hrs. injection Hrs as <-. constructor.
  - simpl in Hrs. unfold bind in Hrs.
    pose proof (validateField_kind c s) as Hk.
    destruct (validateField c s) as [[e|r] s1]; simpl in *; [discriminate|].
    pose proof (IH s1) as IH1.
    destruct (eval_fields fs s1) as [[e|rs'] s2]; simpl in *; [discriminate|].
    unfold ret in Hrs. injection Hrs as <-. constructor; [|by apply IH1].
    intros e ->. by apply Hk.
Qed.

Lemma eval_fields_dom fs s : st_dom (snd (eval_fields fs s)) = st_dom s.
Proof.
  revert s. induction fs as [|[k c] fs IH]; intros s; [reflexivity|].
  simpl. unfold bind.
  destruct (validateField_ok c s) as (r & Hr & Hd & _).
  destruct (validateField c s) as [r0 s1]. simpl in *. subst r0.
  rewrite <- Hd, <- (IH s1).
  destruct (eval_fields fs s1) as [[e|rs] s2]; reflexivity.
Qed.

End FieldKinds.

Section Rendering.
Context `{JsRuntime}.

(** [validate()] renders exactly the current outcome: with the fields
    stored under their own names, once, the error element of the i-th
    registered field shows the message of its violation with
    [display = "block"] when that field has one, and is emptied and hidden
    ([display = "none"]) when it has none, stale messages included; every
    element that is not the error element of a registered field is left
    as it was, and a missing error element stays missing. *)
Theorem validate_renders_current (s : state) :
  NoDup (map fst (st_fields s)) -> fields_keyed (st_fields s) ->
  exists rs s2,
    eval_fields (st_fields s) (with_dom (clear_dom (st_fields s)) s) = (inr rs, s2) /\
    fst (validate s) = inr (forallb is_none rs) /\
    (forall i k c, st_fields s !! i = Some (k, c) ->
       exists r, rs !! i = Some r /\
         query (st_dom (snd (validate s))) ("error-" +:+ k) =
           (match r with
            | Some e => set_error_el (ve_message e) "block"
            | None => set_error_el "" "none"
            end) <$> query (st_dom s) ("error-" +:+ k)) /\
    (forall Y, Y ∉ error_ids (st_fields s) ->
       query (st_dom (snd (validate s))) Y = query (st_dom s) Y).
Proof.
  intros Hnd Hkey. set (fs := st_fields s).
  destruct (validate_two_phase s) as (rs & s2 & Hev & Hval).
  pose proof (eval_fields_dom fs (with_dom (clear_dom fs) s)) as Hdom.
  pose proof (eval_fields_results fs (with_dom (clear_dom fs) s) rs) as Hres.
  change (st_fields s) with fs in Hev. rewrite Hev in Hdom, Hres. simpl in Hdom.
  specialize (Hres eq_refl).
  assert (Hk : keyed_results fs rs).
  { unfold fields_keyed in Hkey. fold fs in Hkey.
    clear -Hres Hkey. induction Hres as [|[k c] r fs rs Hr Hres IH]; constructor.
    - destruct r as [e|]; [|exact I]. destruct (Hr e eq_refl) as (kind & _ & ->). simpl.
      inversion Hkey as [|? ? Hkc]; subst. exact Hkc.
    - apply IH. by inversion Hkey. }
  exists rs, s2. rewrite Hval. simpl. rewrite Hdom.
  split; [exact Hev|]. split; [reflexivity|]. split.
  - intros i k c Hi. destruct (Forall2_lookup_l _ _ _ i _ Hres Hi) as (r & Hri & _).
    exists r. split; [exact Hri|].
    rewrite (query_render_at fs rs _ i k c r Hk Hnd Hi Hri).
    rewrite query_clear_dom.
    rewrite bool_decide_true.
    2: { unfold error_ids. apply (elem_of_map_2 (fun kv : string * FieldConfig => "error-" +:+ kv.1) fs (k, c)).
         by eapply list_elem_of_lookup_2. }
    destruct r as [e|], (query (st_dom s) _); reflexivity.
  - intros Y HY. rewrite (query_render_other fs rs _ Y Hk HY), query_clear_dom.
    by rewrite bool_decide_false.
Qed.

End Rendering.

Definition el_data (e : element) : string * list (string * string) := (el_value e, el_attrs e).

Lemma query_data_upd X Y t dsp d :
  el_data <$> query (upd_first X (set_error_el t dsp) d) Y = el_data <$> query d Y.
Proof.
  rewrite query_upd_first by reflexivity. case_bool_decide; [|reflexivity].
  by destruct (query d Y).
Qed.

Lemma query_data_clear_dom fs d Y :
  el_data <$> query (clear_dom fs d) Y = el_data <$> query d Y.
Proof.
  unfold clear_dom. revert d. induction fs as [|kv fs IH]; intros d; [reflexivity|].
  simpl. rewrite IH. apply query_data_upd.
Qed.

Lemma query_data_render rs d Y :
  el_data <$> query (render rs d) Y = el_data <$> query d Y.
Proof.
  revert d. induction rs as [|r rs IH]; intros d; [reflexivity|].
  rewrite render_cons, IH. destruct r; [apply query_data_upd|reflexivity].
Qed.

Section Inputs.
Context `{JsRuntime}.

(** [validate()] never changes the registered fields, nor the value or
    the attributes of any element of the form: it only writes
    [textContent] and [style.display]. *)
Theorem validate_keeps_inputs_and_fields (s : state) :
  st_fields (snd (validate s)) = st_fields s /\
  forall Y, el_data <$> query (st_dom (snd (validate s))) Y = el_data <$> query (st_dom s) Y.
Proof.
  destruct (validate_two_phase s) as (rs & s2 & Hev & Hval).
  pose proof (eval_fields_dom (st_fields s) (with_dom (clear_dom (st_fields s)) s)) as Hdom.
  destruct (eval_fields_ok (st_fields s) (with_dom (clear_dom (st_fields s)) s)) as (rs' & _ & Hf & _).
  rewrite Hev in Hdom, Hf. simpl in Hdom, Hf.
  rewrite Hval. simpl. split; [exact Hf|].
  intros Y. rewrite query_data_render, Hdom. apply query_data_clear_dom.
Qed.

End Inputs.

(** [Map.prototype.get] on the [#fields] map. *)
Fixpoint field_lookup (k : string) (fs : list (string * FieldConfig)) : option FieldConfig :=
  match fs with
  | [] => None
  | (k', v) :: t => if bool_decide (k' = k) then Some v else field_lookup k t
  end.

Definition rules_pattern_stateless (r : RuleSet) : bool :=
  match rule_pattern r with
  | Some re => negb (re_global re || re_sticky re)
  | None => true
  end.

Lemma map_set_keys fs k v :
  map fst (map_set fs k v) =
    if bool_decide (k ∈ map fst fs) then map fst fs else (map fst fs ++ [k])%list.
Proof.
  induction fs as [|[k' v'] fs IH]; simpl; [reflexivity|].
  destruct (bool_decide (k' = k)) eqn:Hk; simpl.
  - apply bool_decide_eq_true_1 in Hk. subst k'.
    rewrite bool_decide_true; [reflexivity|]. apply elem_of_cons. auto.
  - apply bool_decide_eq_false_1 in Hk. rewrite IH.
    destruct (bool_decide (k ∈ map fst fs)) eqn:H1, (bool_decide (k ∈ k' :: map fst fs)) eqn:H2;
      try reflexivity; exfalso.
    + apply bool_decide_eq_true_1 in H1. apply bool_decide_eq_false_1 in H2.
      apply H2, elem_of_cons. auto.
    + apply bool_decide_eq_false_1 in H1. apply bool_decide_eq_true_1 in H2.
      apply elem_of_cons in H2 as [?|?]; [congruence|auto].
Qed.

Lemma field_lookup_map_set fs k v j :
  field_lookup j (map_set fs k v) = if bool_decide (k = j) then Some v else field_lookup j fs.
Proof.
  induction fs as [|[k' v'] fs IH]; simpl; [reflexivity|].
  destruct (bool_decide (k' = k)) eqn:Hk; simpl.
  - apply bool_decide_eq_true_1 in Hk. subst k'. by destruct (bool_decide (k = j)).
  - apply bool_decide_eq_false_1 in Hk. rewrite IH.
    destruct (bool_decide (k = j)) eqn:H1; [|reflexivity].
    apply bool_decide_eq_true_1 in H1. subst j.
    rewrite bool_decide_false by congruence. reflexivity.
Qed.

Lemma mergeRules_lookup (htmlR : RuleSet) (jsR : option RuleSet) (k : string) :
  mergeRules htmlR jsR !! k =
    match default ∅ jsR !! k with Some v => Some v | None => htmlR !! k end.
Proof.
  unfold mergeRules. rewrite !obj_spread_union, (right_id_L ∅ (∪)).
  rewrite lookup_union. destruct (default ∅ jsR !! k), (htmlR !! k); reflexivity.
Qed.

Lemma mergeRules_none h : mergeRules h None = h.
Proof.
  unfold mergeRules. simpl. rewrite !obj_spread_union.
  by rewrite (left_id_L ∅ (∪)), (right_id_L ∅ (∪)).
Qed.

Section Extraction.
Context `{JsRuntime}.

Lemma extractHtmlRules_state name ty s :
  (fst (extractHtmlRules name ty s) = inl (InputNotFound ("Input not found: input-" +:+ name)) /\
   snd (extractHtmlRules name ty s) = s /\ query (st_dom s) ("input-" +:+ name) = None) \/
  (exists input, query (st_dom s) ("input-" +:+ name) = Some input /\
   ((exists a, is_number ty = false /\ getAttribute input "pattern" = Some a /\ js_RegExp a = None /\
       extractHtmlRules name ty s = (inl (RegExpSyntaxError a), s)) \/
    ((is_number ty = true \/ getAttribute input "pattern" = None \/
      exists a m, getAttribute input "pattern" = Some a /\ js_RegExp a = Some m) /\
     exists hr, fst (extractHtmlRules name ty s) = inr hr /\
       st_dom (snd (extractHtmlRules name ty s)) = st_dom s))).
Proof.
  unfold extractHtmlRules, new_regex. unfold_m. simpl.
  destruct (query (st_dom s) _) as [input|] eqn:Hq; [right; exists input; split; [reflexivity|]|left; auto].
  destruct ty; simpl.
  4: { right. split; [left; reflexivity|]. eexists; split; reflexivity. }
  all: destruct (getAttribute input "pattern") as [a|] eqn:Ha; simpl;
    [destruct (js_RegExp a) as [m|] eqn:Hm; simpl|].
  all: try (right; split; [right; right; eauto|]; eexists; split; reflexivity).
  all: try (left; exists a; repeat split; auto; fail).
  all: right; split; [right; left; reflexivity|]; eexists; split; reflexivity.
Qed.

End Extraction.

Section AddFieldFacts.
Context `{JsRuntime}.

(** The two ways [addField] can throw. *)
Definition input_missing (name : string) (s : state) (e : js_error) : Prop :=
  query (st_dom s) ("input-" +:+ name) = None /\
  e = InputNotFound ("Input not found: input-" +:+ name).

Definition invalid_markup_pattern (name : string) (ty : field_type) (s : state) (e : js_error) : Prop :=
  exists input a, query (st_dom s) ("input-" +:+ name) = Some input /\
    is_number ty = false /\ getAttribute input "pattern" = Some a /\
    js_RegExp a = None /\ e = RegExpSyntaxError a.

(** A [fieldName] of ASCII letters, digits, [-] and [_]: the unescaped
    selector [#input-{fieldName}] is then a valid CSS id selector, which
    selects the element with that exact id (other names can make
    [querySelector] throw a [SyntaxError], or select by class). *)
Definition css_name_char (c : Ascii.ascii) : bool :=
  let n := Ascii.nat_of_ascii c in
  (Nat.leb 48 n && Nat.leb n 57) || (Nat.leb 65 n && Nat.leb n 90) ||
  (Nat.leb 97 n && Nat.leb n 122) || Nat.eqb n 45 || Nat.eqb n 95.

Fixpoint css_plain_name (name : string) : bool :=
  match name with
  | EmptyString => true
  | String c t => css_name_char c && css_plain_name t
  end.

(** For such a name, [addField] throws exactly when [input-{fieldName}] is missing
    ([Input not found: input-{fieldName}]) or when a string-typed field's
    [pattern] attribute is not a valid regular expression (the [RegExp]
    constructor throws); when it throws, nothing has changed. *)
Theorem addField_error_cases (name : string) (ty : field_type) (r : option RuleSet) (s : state) :
  css_plain_name name = true ->
  (forall e s', addField name ty r s = (inl e, s') ->
     s' = s /\ (input_missing name s e \/ invalid_markup_pattern name ty s e)) /\
  (forall e, input_missing name s e \/ invalid_markup_pattern name ty s e ->
     addField name ty r s = (inl e, s)).
Proof.
  intros _. unfold input_missing, invalid_markup_pattern, addField. unfold bind.
  destruct (extractHtmlRules_state name ty s)
    as [(Hf & Hs & Hq)|(input & Hq & [(a & Hn & Ha & Hm & Hex)|(Hok & hr & Hhr & _)])].
  - destruct (extractHtmlRules name ty s) as [o s1]. simpl in Hf, Hs. subst o s1. split.
    + intros e s' Hx. injection Hx as <- <-. auto.
    + intros e [[_ ->]|(input & a & Hq' & _)]; [reflexivity|congruence].
  - rewrite Hex. split.
    + intros e s' Hx. injection Hx as <- <-. split; [reflexivity|right]. eauto 10.
    + intros e [[Hq' _]|(input' & a' & Hq' & _ & Ha' & Hm' & ->)]; [congruence|].
      rewrite Hq in Hq'. injection Hq' as <-. rewrite Ha in Ha'. injection Ha' as <-. reflexivity.
  - destruct (extractHtmlRules name ty s) as [o s1]. simpl in Hhr. subst o. split.
    + intros e s' Hx. unfold modify in Hx. discriminate.
    + intros e [[Hq' _]|(input' & a' & Hq' & Hn' & Ha' & Hm' & _)]; [congruence|].
      rewrite Hq in Hq'. injection Hq' as <-. exfalso.
      destruct Hok as [Hn|[Hp|(a & m & Hp & Hm)]]; [congruence|congruence|].
      rewrite Hp in Ha'. injection Ha' as <-. congruence.
Qed.

(** A successful [addField] stores the config under [fieldName] as
    [Map.set] does: a new name is appended at the end of the validation
    order, a name already registered keeps its position and its config is
    replaced; the stored config holds the given type, the explicit rules
    ([{}] when omitted), the markup rules and their merge (the markup rules
    unchanged when no explicit rules are given); the other names keep
    their configs. *)
Theorem addField_stores (name : string) (ty : field_type) (r : option RuleSet) (s s' : state) (u : unit) :
  addField name ty r s = (inr u, s') ->
  map fst (st_fields s') =
    (if bool_decide (name ∈ map fst (st_fields s)) then map fst (st_fields s)
     else (map fst (st_fields s) ++ [name])%list) /\
  (exists c, field_lookup name (st_fields s') = Some c /\
     fieldName c = name /\ type c = ty /\ rules c = default ∅ r /\
     fst (extractHtmlRules name ty s) = inr (htmlRules c) /\
     finalRules c = mergeRules (htmlRules c) r /\
     (r = None -> finalRules c = htmlRules c)) /\
  (forall k, k <> name -> field_lookup k (st_fields s') = field_lookup k (st_fields s)).
Proof.
  unfold addField, bind, modify. pose proof (extractHtmlRules_fields name ty s) as Hf.
  destruct (extractHtmlRules name ty s) as [[e|hr] s1]; simpl in *; [discriminate|].
  intros Hx. injection Hx as _ <-. simpl. rewrite map_set_keys, Hf. split; [reflexivity|]. split.
  - eexists. rewrite field_lookup_map_set, bool_decide_true by reflexivity.
    split; [reflexivity|]. simpl. repeat split; try reflexivity.
    intros ->. apply mergeRules_none.
  - intros k Hk. rewrite field_lookup_map_set, bool_decide_false by congruence. reflexivity.
Qed.

End AddFieldFacts.

Section Markup.
Context `{JsRuntime}.

Lemma extractHtmlRules_lookups (name : string) (ty : field_type) (s : state)
    (input : element) (hr : RuleSet) :
  query (st_dom s) ("input-" +:+ name) = Some input ->
  fst (extractHtmlRules name ty s) = inr hr ->
  hr !! "required" = (if hasAttribute input "required" then Some (RRequired (Some true)) else None) /\
  hr !! "getMessage" = None /\
  (is_number ty = true ->
     hr !! "min" = (fun a => RMin (Some (js_parseFloat a))) <$> getAttribute input "min" /\
     hr !! "max" = (fun a => RMax (Some (js_parseFloat a))) <$> getAttribute input "max" /\
     hr !! "minLength" = None /\ hr !! "maxLength" = None /\ hr !! "pattern" = None) /\
  (is_number ty = false ->
     hr !! "minLength" = (fun a => RMinLength (Some (js_parseInt10 a))) <$> getAttribute input "minlength" /\
     hr !! "maxLength" = (fun a => RMaxLength (Some (js_parseInt10 a))) <$> getAttribute input "maxlength" /\
     (forall a, getAttribute input "pattern" = Some a ->
        exists m re, js_RegExp a = Some m /\ hr !! "pattern" = Some (RPattern (Some re)) /\
          re_match_at re = m /\ re_global re = false /\ re_sticky re = false) /\
     (getAttribute input "pattern" = None -> hr !! "pattern" = None) /\
     hr !! "min" = None /\ hr !! "max" = None).
Proof.
  intros Hq Hx. unfold extractHtmlRules, new_regex, hasAttribute in *. unfold_m. simpl in Hx.
  rewrite Hq in Hx.
  destruct (getAttribute input "required") eqn:Hr, (getAttribute input "minlength") eqn:Hmi,
    (getAttribute input "maxlength") eqn:Hma, (getAttribute input "pattern") eqn:Hp,
    (getAttribute input "min") eqn:Hmn, (getAttribute input "max") eqn:Hmx;
    destruct ty; simpl in Hx; try (destruct (js_RegExp _) eqn:Hre; simpl in Hx); simplify_eq.
  all: (split; [simplify_map_eq; reflexivity|]); (split; [simplify_map_eq; reflexivity|]);
    split; intros Hty; try discriminate; repeat split; simplify_map_eq; try reflexivity;
    intros; simplify_eq; eauto 10.
Qed.

(** What [#extractHtmlRules] reads off the input: [required] is set to
    [true] whenever the attribute is present, whatever its value; a number
    field takes [min] and [max] through [parseFloat] and nothing else; a
    string-typed field takes [minlength] and [maxlength] through
    [parseInt(_, 10)] and [pattern] as a fresh non-global, non-sticky
    [RegExp], and never [min] or [max]; [getMessage] never comes from the
    markup. *)
Theorem extractHtmlRules_attributes (name : string) (ty : field_type) (s : state)
    (input : element) (hr : RuleSet) :
  query (st_dom s) ("input-" +:+ name) = Some input ->
  fst (extractHtmlRules name ty s) = inr hr ->
  hr !! "required" = (if hasAttribute input "required" then Some (RRequired (Some true)) else None) /\
  hr !! "getMessage" = None /\
  (is_number ty = true ->
     hr !! "min" = (fun a => RMin (Some (js_parseFloat a))) <$> getAttribute input "min" /\
     hr !! "max" = (fun a => RMax (Some (js_parseFloat a))) <$> getAttribute input "max" /\
     hr !! "minLength" = None /\ hr !! "maxLength" = None /\ hr !! "pattern" = None) /\
  (is_number ty = false ->
     hr !! "minLength" = (fun a => RMinLength (Some (js_parseInt10 a))) <$> getAttribute input "minlength" /\
     hr !! "maxLength" = (fun a => RMaxLength (Some (js_parseInt10 a))) <$> getAttribute input "maxlength" /\
     (forall a, getAttribute input "pattern" = Some a ->
        exists m re, js_RegExp a = Some m /\ hr !! "pattern" = Some (RPattern (Some re)) /\
          re_match_at re = m /\ re_global re = false /\ re_sticky re = false) /\
     (getAttribute input "pattern" = None -> hr !! "pattern" = None) /\
     hr !! "min" = None /\ hr !! "max" = None).
Proof. apply extractHtmlRules_lookups. Qed.

Lemma extractHtmlRules_pattern_stateless name ty s hr :
  fst (extractHtmlRules name ty s) = inr hr -> rules_pattern_stateless hr = true.
Proof.
  intros Hx. pose proof (extractHtmlRules_state name ty s) as
    [(Hf & _)|(input & Hq & _)]; [rewrite Hx in Hf; discriminate|].
  destruct (extractHtmlRules_lookups name ty s input hr Hq Hx) as (_ & _ & Hn & Hs).
  unfold rules_pattern_stateless, rule_pattern.
  destruct (is_number ty) eqn:Hty.
  - destruct (Hn eq_refl) as (_ & _ & _ & _ & ->). reflexivity.
  - destruct (Hs eq_refl) as (_ & _ & Hp & Hp' & _).
    destruct (getAttribute input "pattern") as [a|].
    + destruct (Hp a eq_refl) as (m & re & _ & -> & _ & -> & ->). reflexivity.
    + by rewrite Hp'.
Qed.

End Markup.

Section RegistrationInvariants.
Context `{JsRuntime}.

Lemma addField_fields name ty r s :
  st_fields (snd (addField name ty r s)) =
    match fst (extractHtmlRules name ty s) with
    | inl _ => st_fields s
    | inr hr => map_set (st_fields s) name
                  {| fieldName := name; type := ty; rules := default ∅ r;
                     htmlRules := hr; finalRules := mergeRules hr r |}
    end.
Proof.
  unfold addField, bind, modify. pose proof (extractHtmlRules_fields name ty s) as Hf.
  destruct (extractHtmlRules name ty s) as [[e|hr] s1]; simpl in *; [exact Hf|]. by rewrite Hf.
Qed.

Lemma register_all_keyed_nodup (regs : list (string * field_type * option RuleSet)) (s : state) :
  fields_keyed (st_fields s) -> NoDup (map fst (st_fields s)) ->
  fields_keyed (st_fields (snd (register_all regs s))) /\
  NoDup (map fst (st_fields (snd (register_all regs s)))).
Proof.
  revert s. induction regs as [|[[name ty] r] regs IH]; intros s Hk Hnd; [auto|].
  simpl. unfold bind.
  pose proof (addField_fields name ty r s) as Hf.
  destruct (addField name ty r s) as [[e|[]] s1]; simpl in *.
  - destruct (fst (extractHtmlRules name ty s)); [rewrite Hf; auto|].
    rewrite Hf. split.
    + apply map_set_Forall; [exact Hk|reflexivity].
    + rewrite map_set_keys. case_bool_decide as Hin; [exact Hnd|].
      apply NoDup_app. split; [exact Hnd|]. split; [|apply NoDup_singleton].
      intros x Hx Hx'. apply list_elem_of_singleton in Hx'. subst. contradiction.
  - apply IH.
    + destruct (fst (extractHtmlRules name ty s)); rewrite Hf; [exact Hk|].
      apply map_set_Forall; [exact Hk|reflexivity].
    + destruct (fst (extractHtmlRules name ty s)); rewrite Hf; [exact Hnd|].
      rewrite map_set_keys. case_bool_decide as Hin; [exact Hnd|].
      apply NoDup_app. split; [exact Hnd|]. split; [|apply NoDup_singleton].
      intros x Hx Hx'. apply list_elem_of_singleton in Hx'. subst. contradiction.
Qed.

(** Any chain of [addField] calls keeps every config stored under its own
    [fieldName] and no name stored twice. *)
Theorem registrations_keyed_nodup (regs : list (string * field_type * option RuleSet)) (s : state) :
  fields_keyed (st_fields s) -> NoDup (map fst (st_fields s)) ->
  fields_keyed (st_fields (snd (register_all regs s))) /\
  NoDup (map fst (st_fields (snd (register_all regs s)))).
Proof. apply register_all_keyed_nodup. Qed.

Lemma validate_idempotent_core (s : state) :
  stateless_patterns (st_fields s) -> fields_keyed (st_fields s) ->
  validate (snd (validate s)) = validate s.
Proof.
  intros Hp Hk. set (fs := st_fields s).
  destruct (eval_fields_ok fs s) as (rs0 & Hrs0 & _ & Hall).
  pose proof (eval_fields_stateless fs s Hp) as Hst.
  destruct (validate_two_phase s) as (rs & s2 & Hev & Hval).
  rewrite (eval_fields_with_dom fs _ s (clear_dom_values fs)) in Hev.
  rewrite Hrs0, Hst in Hev. injection Hev as <- <-.
  rewrite Hval. simpl.
  destruct (validate_two_phase (with_dom (render rs0) (with_dom (clear_dom fs) s)))
    as (rs' & s2' & Hev' & Hval').
  simpl in Hev'. change (st_fields s) with fs in Hev'.
  assert (Hsc : with_dom (clear_dom fs) (with_dom (render rs0) (with_dom (clear_dom fs) s)) =
                with_dom (fun d => clear_dom fs (render rs0 (clear_dom fs d))) s) by reflexivity.
  rewrite Hsc in Hev'.
  rewrite (eval_fields_with_dom fs _ s) in Hev'.
  2: { apply values_preserved_compose; [apply clear_dom_values|].
       apply values_preserved_compose; [apply render_values|apply clear_dom_values]. }
  rewrite Hrs0, Hst in Hev'. injection Hev' as <- <-.
  rewrite Hval'. unfold with_dom. simpl. do 3 f_equal.
  rewrite clear_dom_render; [apply clear_dom_idem|].
  eapply Forall_impl; [exact Hall|]. intros [e|] He; [|exact I].
  destruct He as (k & c & Hin & kind & ->). simpl.
  assert (Hkc : fieldName c = k).
  { unfold fields_keyed in Hk. rewrite Forall_forall in Hk.
    apply (Hk (k, c)). by apply list_elem_of_In. }
  rewrite Hkc. unfold error_ids. apply list_elem_of_In.
  apply (in_map (fun kv : string * FieldConfig => "error-" +:+ kv.1) fs (k, c)). exact Hin.
Qed.

Lemma pattern_stateless_merge name ty r hr :
  rules_pattern_stateless hr = true -> rules_pattern_stateless (default ∅ r) = true ->
  pattern_stateless {| fieldName := name; type := ty; rules := default ∅ r;
                       htmlRules := hr; finalRules := mergeRules hr r |} = true.
Proof.
  unfold pattern_stateless, rules_pattern_stateless, rule_pattern. simpl.
  rewrite mergeRules_lookup. intros Hh Hr. by destruct (default ∅ r !! "pattern").
Qed.

Lemma register_all_stateless regs s :
  stateless_patterns (st_fields s) ->
  Forall (fun reg => rules_pattern_stateless (default ∅ reg.2) = true) regs ->
  stateless_patterns (st_fields (snd (register_all regs s))).
Proof.
  revert s. induction regs as [|[[name ty] r] regs IH]; intros s Hs Hregs; [exact Hs|].
  inversion Hregs as [|? ? Hr Hrest]; subst. simpl. unfold bind.
  pose proof (addField_fields name ty r s) as Hf.
  pose proof (extractHtmlRules_pattern_stateless name ty s) as Hp.
  assert (Hs1 : stateless_patterns (st_fields (snd (addField name ty r s)))).
  { rewrite Hf. destruct (fst (extractHtmlRules name ty s)) as [e|hr]; [exact Hs|].
    apply map_set_Forall; [exact Hs|]. apply pattern_stateless_merge; [by apply Hp|exact Hr]. }
  destruct (addField name ty r s) as [[e|[]] s1]; simpl in *; [exact Hs1|].
  by apply IH.
Qed.

(** For a validator built by the constructor (no fields) and any chain of
    [addField] calls whose explicit rules hold no global or sticky
    [pattern], a second [validate()] with unchanged values gives the same
    result and the same state as the first. *)
Theorem validate_idempotent_after_registration
    (regs : list (string * field_type * option RuleSet)) (s : state) :
  st_fields s = [] ->
  Forall (fun reg => rules_pattern_stateless (default ∅ reg.2) = true) regs ->
  validate (snd (validate (snd (register_all regs s)))) = validate (snd (register_all regs s)).
Proof.
  intros Hs Hregs. apply validate_idempotent_core.
  - apply register_all_stateless; [rewrite Hs; constructor|exact Hregs].
  - apply (register_all_keyed_nodup regs s); rewrite Hs; constructor.
Qed.

End RegistrationInvariants.

Section Bounds.
Context `{JsRuntime}.

Lemma js_lt_fin x y : js_lt (JFin x) (JFin y) = negb (Qle_bool y x).
Proof. reflexivity. Qed.

(** Both bounds of a number field are inclusive: with finite [min] and
    [max] and a non-empty value that [Number] reads as a finite [q], the
    field is valid iff [min <= q <= max], and the check changes nothing. *)
Theorem number_bounds_inclusive (config : FieldConfig) (s : state) (input : element) (q m M : Q) :
  type config = FNumber ->
  query (st_dom s) ("input-" +:+ fieldName config) = Some input ->
  js_trim (el_value input) <> "" ->
  js_Number (js_trim (el_value input)) = JFin q ->
  rule_min (finalRules config) = Some (JFin m) ->
  rule_max (finalRules config) = Some (JFin M) ->
  snd (validateField config s) = s /\
  (fst (validateField config s) = inr None <-> (m <= q /\ q <= M)%Q).
Proof.
  intros Ht Hq Hv Hn Hmin Hmax. unfold validateField. unfold_m. rewrite Hq, Ht. simpl.
  rewrite (bool_decide_eq_false_2 _ Hv), andb_false_r, Hn, Hmin, Hmax.
  unfold js_gt. rewrite !js_lt_fin.
  destruct (Qle_bool m q) eqn:E1, (Qle_bool q M) eqn:E2; simpl;
    (split; [reflexivity|]); split; intros Hx; try discriminate; try reflexivity.
  - split; by apply Qle_bool_iff.
  - destruct Hx as [_ Hx]. apply Qle_bool_iff in Hx. congruence.
  - destruct Hx as [Hx _]. apply Qle_bool_iff in Hx. congruence.
  - destruct Hx as [Hx _]. apply Qle_bool_iff in Hx. congruence.
Qed.

(** Both length bounds of a string-typed field are inclusive: with finite
    [minLength] and [maxLength], no [pattern] and a non-empty trimmed value,
    the field is valid iff [minLength <= length <= maxLength]. *)
Theorem length_bounds_inclusive (config : FieldConfig) (s : state) (input : element) (a b : Q) :
  is_number (type config) = false ->
  query (st_dom s) ("input-" +:+ fieldName config) = Some input ->
  js_trim (el_value input) <> "" ->
  rule_minLength (finalRules config) = Some (JFin a) ->
  rule_maxLength (finalRules config) = Some (JFin b) ->
  rule_pattern (finalRules config) = None ->
  snd (validateField config s) = s /\
  (fst (validateField config s) = inr None <->
     (a <= inject_Z (Z.of_nat (js_length (js_trim (el_value input)))) <= b)%Q).
Proof.
  intros Ht Hq Hv Hmin Hmax Hp. unfold validateField. unfold_m. rewrite Hq, Ht. simpl.
  rewrite (bool_decide_eq_false_2 _ Hv), andb_false_r, Hmin, Hmax, Hp.
  unfold js_gt, js_of_nat. rewrite !js_lt_fin.
  set (n := inject_Z (Z.of_nat (js_length (js_trim (el_value input))))).
  destruct (Qle_bool a n) eqn:E1, (Qle_bool n b) eqn:E2; simpl;
    (split; [reflexivity|]); split; intros Hx; try discriminate; try reflexivity.
  - split; by apply Qle_bool_iff.
  - destruct Hx as [_ Hx]. apply Qle_bool_iff in Hx. congruence.
  - destruct Hx as [Hx _]. apply Qle_bool_iff in Hx. congruence.
  - destruct Hx as [Hx _]. apply Qle_bool_iff in Hx. congruence.
Qed.

Lemma js_lt_nan_r x : js_lt x JNaN = false.
Proof. by destruct x as [| |[]]. Qed.

Lemma js_lt_nan_l x : js_lt JNaN x = false.
Proof. reflexivity. Qed.

(** A bound that is NaN (for instance [min="abc"] read by [parseFloat])
    never triggers: a non-empty field whose bounds are all NaN or
    undefined and that has no [pattern] is valid. *)
Theorem nan_bounds_never_violated (config : FieldConfig) (s : state) (input : element) :
  query (st_dom s) ("input-" +:+ fieldName config) = Some input ->
  js_trim (el_value input) <> "" ->
  (forall n, rule_min (finalRules config) = Some n -> n = JNaN) ->
  (forall n, rule_max (finalRules config) = Some n -> n = JNaN) ->
  (forall n, rule_minLength (finalRules config) = Some n -> n = JNaN) ->
  (forall n, rule_maxLength (finalRules config) = Some n -> n = JNaN) ->
  rule_pattern (finalRules config) = None ->
  validateField config s = (inr None, s).
Proof.
  intros Hq Hv Hmin Hmax Hmil Hmal Hp. unfold validateField. unfold_m. rewrite Hq. simpl.
  rewrite (bool_decide_eq_false_2 _ Hv), andb_false_r, Hp.
  destruct (rule_min (finalRules config)) as [n1|]; [rewrite (Hmin n1 eq_refl)|];
  destruct (rule_max (finalRules config)) as [n2|]; try rewrite (Hmax n2 eq_refl);
  destruct (rule_minLength (finalRules config)) as [n3|]; try rewrite (Hmil n3 eq_refl);
  destruct (rule_maxLength (finalRules config)) as [n4|]; try rewrite (Hmal n4 eq_refl);
  unfold js_gt; destruct (is_number (type config)); simpl;
  rewrite ?js_lt_nan_l, ?js_lt_nan_r; reflexivity.
Qed.

End Bounds.

Section MessageFacts.
Context `{JsRuntime}.

Lemma default_message_known kind rules :
  kind ∈ violation_kinds ->
  getDefaultErrorMessage kind rules <> "" /\ getDefaultErrorMessage kind rules <> "Ошибка валидации".
Proof.
  unfold violation_kinds. intros Hk.
  repeat (apply elem_of_cons in Hk as [->|Hk]; [unfold getDefaultErrorMessage; simpl;
    rewrite ?bool_decide_false by discriminate; split; discriminate|]).
  by apply not_elem_of_nil in Hk.
Qed.

(** Every violation names its own field and carries a non-empty message;
    unless [getMessage] returns a non-empty string, that message is the
    default text of the violated rule, one of the six rule-specific
    entries of the table, and never the generic "Ошибка валидации". *)
Theorem violation_messages (config : FieldConfig) (s : state) (e : ValidationError) :
  fst (validateField config s) = inr (Some e) ->
  ve_fieldName e = fieldName config /\ ve_message e <> "" /\
  ((forall m, rule_getMessage (finalRules config) = Some m -> m = "") ->
   exists kind, fst (violation_kind config s) = inr (Some kind) /\ kind ∈ violation_kinds /\
     ve_message e = getDefaultErrorMessage kind (finalRules config) /\
     ve_message e <> "Ошибка валидации").
Proof.
  intros He. destruct (violation_kind_error config s e He) as (kind & Hk & ->). simpl.
  pose proof (violation_kind_kinds config s kind Hk) as Hkk.
  destruct (default_message_known kind (finalRules config) Hkk) as [Hd1 Hd2].
  unfold resolve_message.
  destruct (rule_getMessage (finalRules config)) as [m|] eqn:Hm.
  - destruct (bool_decide (m = "")) eqn:Hb.
    + split; [reflexivity|split; [exact Hd1|]]. intros _. exists kind. auto.
    + apply bool_decide_eq_false_1 in Hb. split; [reflexivity|split; [exact Hb|]].
      intros Hall. exfalso. exact (Hb (Hall m eq_refl)).
  - split; [reflexivity|split; [exact Hd1|]]. intros _. exists kind. auto.
Qed.

End MessageFacts.

(** ** The two earlier versions of the class in [form-validator.ts]

    The file also holds two earlier [FormValidator] classes.  The first
    keeps [#stringFields] and [#numberFields] (an [addField] that pushes by
    type, a [validate] that throws "Method not implemented."); the second
    adds [#fieldNames] and a constructor that calls
    [#inferDefaultFieldRules], which [console.log]s the form's children
    whose id is a registered name.  [Options] is left abstract, [{}] being
    [empty_options]; a thrown [Error] is its message on the left. *)

Module FormValidatorV1.
Section V1.
Context {Options : Type} (empty_options : Options).

Record Field := {
  f_fieldName : string;
  f_type : field_type;
  f_rules : list RuleSet;
  f_options : Options
}.

Record validator := {
  form : list element;
  stringFields : list Field;
  numberFields : list Field
}.

Definition constructor (f : list element) : validator :=
  {| form := f; stringFields := []; numberFields := [] |}.

Definition mk_field (fieldName : string) (ty : field_type) (rules : option (list RuleSet))
    (options : option Options) : Field :=
  {| f_fieldName := fieldName; f_type := ty; f_rules := default [] rules;
     f_options := default empty_options options |}.

Definition addField (v : validator) (fieldName : string) (ty : field_type)
    (rules : option (list RuleSet)) (options : option Options) : validator :=
  let fld := mk_field fieldName ty rules options in
  match ty with
  | FEmail | FPassword | FText =>
    {| form := form v; stringFields := (stringFields v ++ [fld])%list; numberFields := numberFields v |}
  | FNumber =>
    {| form := form v; stringFields := stringFields v; numberFields := (numberFields v ++ [fld])%list |}
  end.

Definition validate (v : validator) : string + bool := inl "Method not implemented.".

Definition registration : Type := string * field_type * option (list RuleSet) * option Options.

Definition add_reg (v : validator) (reg : registration) : validator :=
  match reg with (n, t, r, o) => addField v n t r o end.

Definition reg_field (reg : registration) : Field :=
  match reg with (n, t, r, o) => mk_field n t r o end.

Definition reg_is_number (reg : registration) : bool := is_number reg.1.1.2.

Lemma add_regs_fields (regs : list registration) (v : validator) :
  stringFields (foldl add_reg v regs) =
    (stringFields v ++ map reg_field (List.filter (fun reg => negb (reg_is_number reg)) regs))%list /\
  numberFields (foldl add_reg v regs) =
    (numberFields v ++ map reg_field (List.filter reg_is_number regs))%list.
Proof.
  revert v. induction regs as [|[[[n t] r] o] regs IH]; intros v; simpl.
  - by rewrite !app_nil_r.
  - destruct (IH (addField v n t r o)) as [H1 H2]. rewrite H1, H2.
    unfold reg_is_number at 1 3. simpl.
    destruct t; simpl; rewrite <- ?app_assoc; split; reflexivity.
Qed.

(** First version: after the constructor and any [addField] calls, the
    string-typed registrations are in [#stringFields] and the number
    registrations in [#numberFields], each in call order, duplicates
    kept, with [rules] defaulting to [[]] and [options] to [{}]. *)
Theorem fields_partitioned (f : list element) (regs : list registration) :
  stringFields (foldl add_reg (constructor f) regs) =
    map reg_field (List.filter (fun reg => negb (reg_is_number reg)) regs) /\
  numberFields (foldl add_reg (constructor f) regs) = map reg_field (List.filter reg_is_number regs).
Proof. apply add_regs_fields. Qed.

End V1.
End FormValidatorV1.

Module FormValidatorV2.
Import FormValidatorV1.
Section V2.
Context {Options : Type} (empty_options : Options).

Record validator := {
  form_children : list element;
  stringFields : list (@Field Options);
  numberFields : list (@Field Options);
  fieldNames : list string
}.

(** [Set.prototype.add]: insertion ordered, no duplicates. *)
Definition set_add (x : string) (l : list string) : list string :=
  if bool_decide (x ∈ l) then l else (l ++ [x])%list.

(** [#inferDefaultFieldRules()]: the children it passes to [console.log]. *)
Definition inferDefaultFieldRules (v : validator) : list element :=
  List.filter (fun child => bool_decide (el_id child ∈ fieldNames v)) (form_children v).

(** [new FormValidator(form)], with what the constructor logs. *)
Definition constructor (children : list element) : validator * list element :=
  let v := {| form_children := children; stringFields := []; numberFields := []; fieldNames := [] |} in
  (v, inferDefaultFieldRules v).

Definition addField (v : validator) (fieldName : string) (ty : field_type)
    (rules : option (list RuleSet)) (options : option Options) : validator :=
  let fld := mk_field empty_options fieldName ty rules options in
  match ty with
  | FEmail | FPassword | FText =>
    {| form_children := form_children v; stringFields := (stringFields v ++ [fld])%list;
       numberFields := numberFields v; fieldNames := set_add fieldName (fieldNames v) |}
  | FNumber =>
    {| form_children := form_children v; stringFields := stringFields v;
       numberFields := (numberFields v ++ [fld])%list; fieldNames := set_add fieldName (fieldNames v) |}
  end.

Definition validate (v : validator) : string + bool := inl "Method not implemented.".

Definition add_reg (v : validator) (reg : @registration Options) : validator :=
  match reg with (n, t, r, o) => addField v n t r o end.

Lemma set_add_spec x l y : y ∈ set_add x l <-> y = x \/ y ∈ l.
Proof.
  unfold set_add. case_bool_decide as Hx.
  - split; [auto|]. intros [->|?]; auto.
  - rewrite elem_of_app, list_elem_of_singleton. tauto.
Qed.

Lemma set_add_nodup x l : NoDup l -> NoDup (set_add x l).
Proof.
  unfold set_add. intros Hl. case_bool_decide as Hx; [exact Hl|].
  apply NoDup_app. split; [exact Hl|]. split; [|apply NoDup_singleton].
  intros y Hy Hy'. apply list_elem_of_singleton in Hy'. subst. contradiction.
Qed.

Lemma add_regs_names (regs : list (@registration Options)) (v : validator) :
  NoDup (fieldNames v) ->
  NoDup (fieldNames (foldl add_reg v regs)) /\
  (forall x, x ∈ fieldNames (foldl add_reg v regs) <->
     x ∈ fieldNames v \/ x ∈ map (fun reg : @registration Options => reg.1.1.1) regs).
Proof.
  revert v. induction regs as [|[[[n t] r] o] regs IH]; intros v Hv; simpl.
  - split; [exact Hv|]. intros x. rewrite elem_of_nil. tauto.
  - assert (Hn : fieldNames (addField v n t r o) = set_add n (fieldNames v)) by (destruct t; reflexivity).
    destruct (IH (addField v n t r o)) as [Hnd Hx]; [rewrite Hn; by apply set_add_nodup|].
    split; [exact Hnd|]. intros x. rewrite Hx, Hn, set_add_spec, elem_of_cons. tauto.
Qed.

Lemma filter_false_nil (l : list element) :
  List.filter (fun child => bool_decide (el_id child ∈ ([] : list string))) l = [].
Proof. induction l as [|e l IH]; simpl; [reflexivity|]. exact IH. Qed.

(** Second version: the constructor calls [#inferDefaultFieldRules] while
    [#fieldNames] is still empty, so it logs nothing; after any [addField]
    calls [#fieldNames] holds exactly the registered names, once each. *)
Theorem constructor_logs_nothing_names_tracked (children : list element) (regs : list (@registration Options)) :
  snd (constructor children) = [] /\
  NoDup (fieldNames (foldl add_reg (fst (constructor children)) regs)) /\
  (forall x, x ∈ fieldNames (foldl add_reg (fst (constructor children)) regs) <->
     x ∈ map (fun reg : @registration Options => reg.1.1.1) regs).
Proof.
  split; [apply filter_false_nil|].
  destruct (add_regs_names regs (fst (constructor children))) as [Hnd Hx]; [constructor|].
  split; [exact Hnd|]. intros x. rewrite Hx. simpl. rewrite elem_of_nil. tauto.
Qed.

End V2.
End FormValidatorV2.

(** ** Witnesses *)

Definition signup_dom : list element :=
  (field_elems "username" "  Jo " [("required", ""); ("minlength", "3")] ++
   field_elems "age" "17" [("min", "18"); ("max", "abc")])%list.

Definition state_signup : state := init_state signup_dom.

Definition regs_signup : list (string * field_type * option RuleSet) :=
  [("username", FText, Some (mk_rules [RMaxLength (Some (JFin 10))]));
   ("age", FNumber, None);
   ("username", FText, Some (mk_rules [RGetMessage (Some "Введите имя")]))].

Definition signup_registered : state := snd (register_all regs_signup state_signup).

Definition username_input : element :=
  {| el_id := "input-username"; el_value := "  Jo "; el_attrs := [("required", ""); ("minlength", "3")];
     el_text := ""; el_display := "" |}.

Definition username_markup : RuleSet :=
  match fst (extractHtmlRules "username" FText state_signup) with inr h => h | inl _ => ∅ end.

Lemma addField_stores_witness :
  addField "username" FText (Some (mk_rules [RMaxLength (Some (JFin 10))])) state_signup =
    (inr tt, snd (addField "username" FText (Some (mk_rules [RMaxLength (Some (JFin 10))])) state_signup)) /\
  map fst (st_fields (snd (addField "username" FText (Some (mk_rules [RMaxLength (Some (JFin 10))])) state_signup))) = ["username"].
Proof.
  split; [vm_compute; reflexivity|].
  destruct (addField_stores "username" FText (Some (mk_rules [RMaxLength (Some (JFin 10))])) state_signup
              (snd (addField "username" FText (Some (mk_rules [RMaxLength (Some (JFin 10))])) state_signup)) tt)
    as [Hk _]; [vm_compute; reflexivity|].
  rewrite Hk. vm_compute. reflexivity.
Defined.

Lemma extractHtmlRules_attributes_witness :
  query (st_dom state_signup) ("input-" +:+ "username") = Some username_input /\
  fst (extractHtmlRules "username" FText state_signup) = inr username_markup /\
  username_markup !! "required" = Some (RRequired (Some true)) /\
  username_markup !! "minLength" = Some (RMinLength (Some (JFin 3))).
Proof.
  refine (conj _ (conj _ _)); [vm_compute; reflexivity .. |].
  destruct (extractHtmlRules_attributes "username" FText state_signup username_input username_markup)
    as (Hr & _ & _ & Hs); [vm_compute; reflexivity .. |].
  destruct (Hs eq_refl) as (Hmin & _). rewrite Hr, Hmin. vm_compute. split; reflexivity.
Defined.

Lemma registrations_keyed_nodup_witness :
  fields_keyed (st_fields state_signup) /\ NoDup (map fst (st_fields state_signup)) /\
  fields_keyed (st_fields signup_registered) /\ NoDup (map fst (st_fields signup_registered)).
Proof.
  refine (conj _ (conj _ _)); [apply (bool_decide_eq_true_1 _); vm_compute; reflexivity .. |].
  apply registrations_keyed_nodup; apply (bool_decide_eq_true_1 _); vm_compute; reflexivity.
Defined.

Lemma validate_idempotent_after_registration_witness :
  st_fields state_signup = [] /\
  Forall (fun reg => rules_pattern_stateless (default ∅ reg.2) = true) regs_signup /\
  validate (snd (validate signup_registered)) = validate signup_registered.
Proof.
  refine (conj _ (conj _ _)); [reflexivity | apply (bool_decide_eq_true_1 _); vm_compute; reflexivity |].
  apply validate_idempotent_after_registration;
    [reflexivity | apply (bool_decide_eq_true_1 _); vm_compute; reflexivity].
Defined.

Lemma validate_renders_current_witness :
  NoDup (map fst (st_fields signup_registered)) /\ fields_keyed (st_fields signup_registered) /\
  error_text (snd (validate signup_registered)) "username" = Some "Введите имя" /\
  error_text (snd (validate signup_registered)) "age" = Some "Минимальное значение: 18".
Proof.
  refine (conj _ (conj _ _)); [apply (bool_decide_eq_true_1 _); vm_compute; reflexivity .. |].
  destruct (validate_renders_current signup_registered) as (rs & s2 & Hev & _ & Hat & _);
    [apply (bool_decide_eq_true_1 _); vm_compute; reflexivity .. |].
  unfold error_text.
  destruct (Hat 0 "username" (match field_lookup "username" (st_fields signup_registered) with
                              | Some c => c | None => config_age end)) as (r0 & Hr0 & Hq0);
    [vm_compute; reflexivity|].
  destruct (Hat 1 "age" (match field_lookup "age" (st_fields signup_registered) with
                         | Some c => c | None => config_age end)) as (r1 & Hr1 & Hq1);
    [vm_compute; reflexivity|].
  rewrite Hq0, Hq1. vm_compute in Hev. injection Hev as Hrs _. subst rs.
  vm_compute in Hr0, Hr1. injection Hr0 as <-. injection Hr1 as <-.
  vm_compute. split; reflexivity.
Defined.

Definition config_len : FieldConfig :=
  let r := mk_rules [RMinLength (Some (JFin 3)); RMaxLength (Some (JFin 5))] in
  {| fieldName := "username"; type := FText; rules := r; htmlRules := ∅; finalRules := r |}.

Lemma number_bounds_inclusive_witness :
  type config_age = FNumber /\
  query (st_dom (state_age "100")) ("input-" +:+ fieldName config_age) = Some (input_age "100") /\
  js_trim (el_value (input_age "100")) <> "" /\
  js_Number (js_trim (el_value (input_age "100"))) = JFin 100 /\
  rule_min (finalRules config_age) = Some (JFin 18) /\
  rule_max (finalRules config_age) = Some (JFin 100) /\
  fst (validateField config_age (state_age "100")) = inr None.
Proof.
  refine (conj _ (conj _ (conj _ (conj _ (conj _ (conj _ _)))))); [reflexivity | vm_compute; reflexivity
    | vm_compute; discriminate | vm_compute; reflexivity | vm_compute; reflexivity | vm_compute; reflexivity |].
  destruct (number_bounds_inclusive config_age (state_age "100") (input_age "100") 100 18 100)
    as [_ Hiff]; [reflexivity | vm_compute; reflexivity | vm_compute; discriminate
                 | vm_compute; reflexivity | vm_compute; reflexivity | vm_compute; reflexivity |].
  apply Hiff. split; vm_compute; discriminate.
Defined.

Lemma length_bounds_inclusive_witness :
  is_number (type config_len) = false /\
  query (st_dom (state_user "Johny")) ("input-" +:+ fieldName config_len) = Some (input_user "Johny") /\
  js_trim (el_value (input_user "Johny")) <> "" /\
  rule_minLength (finalRules config_len) = Some (JFin 3) /\
  rule_maxLength (finalRules config_len) = Some (JFin 5) /\
  rule_pattern (finalRules config_len) = None /\
  fst (validateField config_len (state_user "Johny")) = inr None.
Proof.
  refine (conj _ (conj _ (conj _ (conj _ (conj _ (conj _ _)))))); [reflexivity | vm_compute; reflexivity
    | vm_compute; discriminate | vm_compute; reflexivity | vm_compute; reflexivity | vm_compute; reflexivity |].
  destruct (length_bounds_inclusive config_len (state_user "Johny") (input_user "Johny") 3 5)
    as [_ Hiff]; [reflexivity | vm_compute; reflexivity | vm_compute; discriminate
                 | vm_compute; reflexivity | vm_compute; reflexivity | vm_compute; reflexivity |].
  apply Hiff. split; vm_compute; discriminate.
Defined.

(** [min="abc"] and [max="abc"] in the markup: [parseFloat] gives NaN. *)
Definition config_nan : FieldConfig :=
  let r := mk_rules [RMin (Some JNaN); RMax (Some JNaN)] in
  {| fieldName := "age"; type := FNumber; rules := ∅; htmlRules := r; finalRules := r |}.

Lemma nan_bounds_never_violated_witness :
  query (st_dom (state_age "5")) ("input-" +:+ fieldName config_nan) = Some (input_age "5") /\
  js_trim (el_value (input_age "5")) <> "" /\
  rule_min (finalRules config_nan) = Some JNaN /\ rule_max (finalRules config_nan) = Some JNaN /\
  validateField config_nan (state_age "5") = (inr None, state_age "5").
Proof.
  refine (conj _ (conj _ (conj _ (conj _ _)))); [vm_compute; reflexivity | vm_compute; discriminate
    | vm_compute; reflexivity | vm_compute; reflexivity |].
  apply (nan_bounds_never_violated config_nan (state_age "5") (input_age "5"));
    [vm_compute; reflexivity | vm_compute; discriminate | .. | vm_compute; reflexivity];
    intros n Hn; vm_compute in Hn; congruence.
Defined.

Definition error_age : ValidationError :=
  {| ve_fieldName := "age"; ve_message := "Минимальное значение: 18" |}.

Lemma violation_messages_witness :
  fst (validateField config_age (state_age "15")) = inr (Some error_age) /\
  fst (violation_kind config_age (state_age "15")) = inr (Some "min") /\
  ve_message error_age = getDefaultErrorMessage "min" (finalRules config_age) /\
  ve_message error_age <> "Ошибка валидации".
Proof.
  split; [vm_compute; reflexivity|].
  destruct (violation_messages config_age (state_age "15") error_age) as (_ & _ & Hd);
    [vm_compute; reflexivity|].
  destruct Hd as (kind & Hk & _ & Hmsg & Hnf); [intros m Hm; vm_compute in Hm; discriminate|].
  assert (Hkind : kind = "min") by (vm_compute in Hk; congruence). subst kind.
  split; [exact Hk|]. split; [exact Hmsg|exact Hnf].
Defined.

(** A plain name whose input is missing. *)
Lemma addField_error_cases_witness :
  css_plain_name "user_name-2" = true /\
  addField "user_name-2" FText None (state_user "") =
    (inl (InputNotFound ("Input not found: input-" +:+ "user_name-2")), state_user "").
Proof.
  split; [vm_compute; reflexivity|].
  destruct (addField_error_cases "user_name-2" FText None (state_user "")) as [_ Hthrow];
    [vm_compute; reflexivity|].
  apply Hthrow. left. split; [vm_compute; reflexivity|reflexivity].
Defined.
